(** * Aces: engine supervision and stream reconnection

    A shallow embedding of the parts of the application that manage the
    Ace Stream engine process and the playback session:

    - [AppContent]: the stats-driven reconnect loop of the renderer
      (the polling effect of the [AppContent] component), each callback
      run to its end;
    - [Polling]: the same effect with its callbacks in flight, an
      interval callback waiting for [getStats] with the count it
      captured and a timer callback waiting for [stop] and [play];
    - [Engine]: [EngineManager] of [electron/main/engine.ts]
      (status probe, readiness poll, start coalescing, stream statistics,
      process-tree kill);
    - [Ipc]: input validation and the [acestream:*] handlers of
      [setupIpcHandlers].

    JavaScript numbers that hold counts, byte totals and milliseconds are
    integers here ([nat] for the retry counter, [Z] elsewhere); strings are
    [string]; a promise that may reject is a [result]. *)

From Stdlib Require Import ZArith String Ascii List Bool Lia.
From stdpp Require Import base list strings.
Import ListNotations.

Open Scope Z_scope.

(** ** Results of operations that may throw *)

Inductive result (A : Type) : Type :=
| Ok (a : A)
| Throw (message : string).
Arguments Ok {A} a.
Arguments Throw {A} message.

Definition bind {A B} (r : result A) (k : A -> result B) : result B :=
  match r with
  | Ok a => k a
  | Throw e => Throw e
  end.

(** [try { body } catch { handler }] *)
Definition try_catch {A} (body : result A) (handler : string -> result A) : result A :=
  match body with
  | Ok a => Ok a
  | Throw e => handler e
  end.

Notation "'await' x ':=' r 'in' k" := (bind r (fun x => k))
  (at level 10, x name, r at level 200, k at level 200).

Definition returns {A} (r : result A) : Prop := exists a, r = Ok a.

(** ** Types shared by the main process and the renderer *)

Record StreamStats := mkStreamStats {
  status : string;
  peers : Z;
  speedDown : Z;
  speedUp : Z;
  downloaded : Z;
  uploaded : Z;
  isLive : bool
}.

Record PlaybackSession := mkPlaybackSession {
  playbackUrl : string;
  statUrl : string;
  commandUrl : string;
  eventUrl : string;
  infoHash : string;
  sessionId : string;
  sessionIsLive : bool
}.

(** The literal returned when statistics cannot be obtained. *)
Definition errorStats : StreamStats :=
  {| status := "error"; peers := 0; speedDown := 0; speedUp := 0;
     downloaded := 0; uploaded := 0; isLive := false |}.

(** ** The reconnect loop of [AppContent] *)

Module AppContent.

Definition MAX_RETRIES : nat := 5.
Definition RETRY_INTERVALS : list Z := [3000; 5000; 10000; 15000; 30000].

(** [RETRY_INTERVALS[Math.min(retryCount, RETRY_INTERVALS.length - 1)]];
    an index outside the array reads [undefined], here [None]. *)
Definition retryDelay (retryCount : nat) : option Z :=
  RETRY_INTERVALS !! Nat.min retryCount (length RETRY_INTERVALS - 1).

(** Handle returned by [setTimeout], with the delay it was armed with. *)
Record Timeout := { ms : option Z }.

(** [retryCount] is React state; the other two are refs. *)
Record Retry := mkRetry {
  retryCount : nat;
  isRetryingRef : bool;
  retryTimeoutRef : option Timeout
}.

Definition initial : Retry :=
  {| retryCount := 0; isRetryingRef := false; retryTimeoutRef := None |}.

Definition setRetryCount (f : nat -> nat) (r : Retry) : Retry :=
  {| retryCount := f (retryCount r);
     isRetryingRef := isRetryingRef r;
     retryTimeoutRef := retryTimeoutRef r |}.

(** How the restart issued by the retry timer ended: [play] succeeded
    with a session, [play] returned a failure, or a call threw. *)
Inductive restart := Restarted | RestartFailed | RestartThrew.

Inductive effect :=
| SetTimeout (delay : option Z)      (* a retry has been scheduled *)
| StopThenPlay (outcome : restart).  (* one restart attempt was made *)

(** Body of the polling interval after [getStats] has resolved with
    [newStats].  [seen] is the [retryCount] captured by the effect that
    installed the interval; the refs are read at the time of the call. *)
Definition onStats (seen : nat) (newStats : StreamStats) (r : Retry)
  : Retry * list effect :=
  let '(r1, out) :=
    if (status newStats =? "error")%string
       && negb (isRetryingRef r) && (seen <? MAX_RETRIES)%nat
    then ({| retryCount := retryCount r;
             isRetryingRef := true;
             retryTimeoutRef := Some {| ms := retryDelay seen |} |},
          [SetTimeout (retryDelay seen)])
    else (r, [])
  in
  if (status newStats =? "dl")%string
     && (0 <? peers newStats) && (0 <? seen)%nat
  then (setRetryCount (fun _ => 0%nat) r1, out)
  else (r1, out).

(** Body of the retry timer: stop, play, then count the attempt in each
    of the three exits; [finally] releases the guard. *)
Definition onRetryTimeout (outcome : restart) (r : Retry) : Retry :=
  let r1 :=
    match outcome with
    | Restarted => setRetryCount S r
    | RestartFailed => setRetryCount S r
    | RestartThrew => setRetryCount S r
    end in
  {| retryCount := retryCount r1;
     isRetryingRef := false;
     retryTimeoutRef := retryTimeoutRef r1 |}.

(** The polling effect lists [retryCount] among its dependencies: when
    the count changes the cleanup runs ([clearTimeout] and the ref is
    nulled) and a new interval captures the new count. *)
Definition rerender (before : nat) (r : Retry) : Retry :=
  if (retryCount r =? before)%nat then r
  else {| retryCount := retryCount r;
          isRetryingRef := isRetryingRef r;
          retryTimeoutRef := None |}.

Inductive event :=
| Sample (newStats : StreamStats)   (* an interval tick delivered stats *)
| TimerFired (outcome : restart).   (* the pending retry timer ran *)

(** One event of the running session.  A sample is handled by the
    interval of the latest render, so it sees the current count; a timer
    that is not pending does not fire.  Callbacks that resume after the
    count has changed are in [Polling]. *)
Definition step (r : Retry) (ev : event) : Retry * list effect :=
  match ev with
  | Sample newStats =>
      let '(r1, out) := onStats (retryCount r) newStats r in
      (rerender (retryCount r) r1, out)
  | TimerFired outcome =>
      match retryTimeoutRef r with
      | None => (r, [])
      | Some _ =>
          (rerender (retryCount r) (onRetryTimeout outcome r),
           [StopThenPlay outcome])
      end
  end.

Fixpoint run (r : Retry) (evs : list event) : Retry * list effect :=
  match evs with
  | [] => (r, [])
  | ev :: evs' =>
      let '(r1, out1) := step r ev in
      let '(r2, out2) := run r1 evs' in
      (r2, out1 ++ out2)
  end.

Definition isAttempt (e : effect) : bool :=
  match e with StopThenPlay _ => true | SetTimeout _ => false end.

Definition isSchedule (e : effect) : bool :=
  match e with SetTimeout _ => true | StopThenPlay _ => false end.

(** Restart attempts made, and retries scheduled, in a log. *)
Definition attempts (out : list effect) : nat := length (List.filter isAttempt out).
Definition schedules (out : list effect) : nat := length (List.filter isSchedule out).

Definition isError (s : StreamStats) : bool := (status s =? "error")%string.

(** A sample showing healthy delivery. *)
Definition isRecovery (s : StreamStats) : bool :=
  (status s =? "dl")%string && (0 <? peers s).

Definition recovers (ev : event) : bool :=
  match ev with
  | Sample newStats => isRecovery newStats
  | TimerFired _ => false
  end.

(** No sample of the run shows healthy delivery. *)
Definition noRecovery (evs : list event) : bool :=
  forallb (fun ev => negb (recovers ev)) evs.

(** An error sample whose retry timer runs before the next sample. *)
Definition errorRound (p : StreamStats * restart) : list event :=
  [Sample (fst p); TimerFired (snd p)].

(** What holds of the retry state between events: the count is within
    the cap, the guard is only held below the cap, and a timer is only
    pending while the guard is held. *)
Definition guarded (r : Retry) : Prop :=
  (retryCount r <= MAX_RETRIES)%nat /\
  (isRetryingRef r = true -> (retryCount r < MAX_RETRIES)%nat) /\
  (retryTimeoutRef r <> None -> isRetryingRef r = true).

Definition held (r : Retry) : nat := if isRetryingRef r then 1 else 0.

(** Sample values used below. *)
Definition searching : StreamStats :=
  {| status := "dl"; peers := 0; speedDown := 0; speedUp := 0;
     downloaded := 0; uploaded := 0; isLive := true |}.

Definition healthy : StreamStats :=
  {| status := "dl"; peers := 7; speedDown := 524288; speedUp := 0;
     downloaded := 0; uploaded := 0; isLive := true |}.

Definition sixErrorRounds : list (StreamStats * restart) :=
  [(errorStats, Restarted); (errorStats, RestartFailed);
   (errorStats, RestartThrew); (errorStats, RestartFailed);
   (errorStats, Restarted); (errorStats, Restarted)].

End AppContent.

(** ** The polling effect with its callbacks in flight

    [AppContent.step] runs every callback to its end before the next
    event.  Both callbacks of the effect wait in the middle: the interval
    callback for [getStats], with the [retryCount] of the render that
    installed its interval, and the timer callback for [stop] and [play].
    Here each of them is two events, and the count may change in
    between. *)

Module Polling.
Import AppContent.

(** The running session between two events: the retry state; the counts
    captured by the interval callbacks that wait for [getStats], oldest
    first; whether the timer held in [retryTimeoutRef] has neither fired
    nor been cleared; the armed timers whose handle was overwritten in
    [retryTimeoutRef]; the timer callbacks that have fired and wait for
    [stop] or [play]. *)
Record Loop := mkLoop {
  refs : Retry;
  waiting : list nat;
  armed : bool;
  orphans : nat;
  restarting : nat
}.

Definition start : Loop := mkLoop initial [] false 0 0.


Inductive event :=
| Tick                                       (* the interval fires, [getStats] is sent *)
| Stats (k : nat) (newStats : StreamStats)   (* the k-th waiting callback resumes *)
| TimerFires                                 (* the timer in [retryTimeoutRef] fires *)
| OrphanFires                                (* an overwritten timer fires *)
| RestartSettles (outcome : restart).        (* a fired callback leaves [stop]/[play] *)

(** The effect's cleanup on a changed count: [clearTimeout] of the handle
    in [retryTimeoutRef], which is then nulled. *)
Definition cleanup (before : nat) (l : Loop) : Loop :=
  if (retryCount (refs l) =? before)%nat then l
  else mkLoop (rerender before (refs l)) (waiting l) false (orphans l) (restarting l).

(** The interval callback after its [await], holding the count [seen]. *)
Definition deliver (seen : nat) (newStats : StreamStats) (l : Loop)
  : Loop * list effect :=
  let '(r1, out) := onStats seen newStats (refs l) in
  let scheduled := existsb isSchedule out in
  (cleanup (retryCount (refs l))
     (mkLoop r1 (waiting l)
             (scheduled || armed l)
             (if scheduled && armed l then S (orphans l) else orphans l)
             (restarting l)),
   out).

Definition step (l : Loop) (ev : event) : Loop * list effect :=
  match ev with
  | Tick =>
      (mkLoop (refs l) (waiting l ++ [retryCount (refs l)])
              (armed l) (orphans l) (restarting l), [])
  | Stats k newStats =>
      match waiting l !! k with
      | Some seen =>
          deliver seen newStats
            (mkLoop (refs l) (delete k (waiting l))
                    (armed l) (orphans l) (restarting l))
      | None => (l, [])
      end
  | TimerFires =>
      if armed l
      then (mkLoop (refs l) (waiting l) false (orphans l) (S (restarting l)), [])
      else (l, [])
  | OrphanFires =>
      match orphans l with
      | S n => (mkLoop (refs l) (waiting l) (armed l) n (S (restarting l)), [])
      | O => (l, [])
      end
  | RestartSettles outcome =>
      match restarting l with
      | S n =>
          (cleanup (retryCount (refs l))
             (mkLoop (onRetryTimeout outcome (refs l)) (waiting l)
                     (armed l) (orphans l) n),
           [StopThenPlay outcome])
      | O => (l, [])
      end
  end.

Fixpoint run (l : Loop) (evs : list event) : Loop * list effect :=
  match evs with
  | [] => (l, [])
  | ev :: evs' =>
      let '(l1, out1) := step l ev in
      let '(l2, out2) := run l1 evs' in
      (l2, out1 ++ out2)
  end.


(** What the guard keeps: no timer is ever overwritten while armed; an
    armed timer is the one in [retryTimeoutRef]; at most one retry is
    armed or running, and the guard is held while one is. *)
Definition single (l : Loop) : Prop :=
  orphans l = 0%nat /\
  (armed l = true -> retryTimeoutRef (refs l) <> None) /\
  (armed l = true -> isRetryingRef (refs l) = true /\ restarting l = 0%nat) /\
  (restarting l <> 0%nat -> isRetryingRef (refs l) = true /\ restarting l = 1%nat).

(** The guard is held, no timer is armed and no restart is running. *)
Definition stuck (l : Loop) : Prop :=
  isRetryingRef (refs l) = true /\ armed l = false /\
  orphans l = 0%nat /\ restarting l = 0%nat.

(** An interval callback waits across a failed restart and then receives
    healthy statistics. *)
Definition acrossRestart : list event :=
  [Tick; Stats 0 errorStats; TimerFires; Tick; RestartSettles RestartFailed].

End Polling.

(** ** [EngineManager] *)

Module Engine.

Definition ENGINE_API_URL : string := "http://127.0.0.1:6878".
Definition ENGINE_START_TIMEOUT : Z := 30000.

Record EngineStatus := mkStatus {
  running : bool;
  version : option string;
  platform : option string;
  error : option string
}.

(** *** Bodies of the engine's replies

    An [axios.get] either throws (no connection, timeout, a status
    outside 2xx) or delivers a body.  Of a body only the member the
    caller reads matters: [None] when [data?.result] (or
    [data?.response]) is missing, [null] or otherwise falsy, and the
    fields of the object when it is there.  A field that is absent reads
    [undefined], here [None]; fields hold values of their documented
    type. *)

Record VersionInfo := mkVersionInfo {
  info_version : option string;
  info_platform : option string
}.

Record StatInfo := mkStatInfo {
  stat_status : option string;
  stat_peers : option Z;
  stat_speed_down : option Z;
  stat_speed_up : option Z;
  stat_downloaded : option Z;
  stat_uploaded : option Z;
  stat_is_live : option Z
}.

(** Truthiness of a string that may be [undefined]. *)
Definition truthy (v : option string) : bool :=
  match v with
  | Some s => negb (s =? "")%string
  | None => false
  end.

(** [v || d] on strings and on numbers. *)
Definition strOr (v : option string) (d : string) : string :=
  match v with
  | Some s => if (s =? "")%string then d else s
  | None => d
  end.

Definition numOr (v : option Z) (d : Z) : Z :=
  match v with
  | Some n => if n =? 0 then d else n
  | None => d
  end.

(** [v === 1] *)
Definition isOne (v : option Z) : bool :=
  match v with
  | Some n => n =? 1
  | None => false
  end.

(** *** [getStatus] *)

Definition notRunning : EngineStatus :=
  {| running := false; version := None; platform := None; error := None |}.

Definition getStatus (probe : result (option VersionInfo)) : result EngineStatus :=
  try_catch
    (await response := probe in
     match response with
     | Some info =>
         Ok {| running := true;
               version := info_version info;
               platform := info_platform info;
               error := None |}
     | None => Ok notRunning
     end)
    (fun _ => Ok notRunning).

(** *** [waitForEngine]

    One turn of the loop sends the probe, and unless a version came back
    pauses 500 ms.  [took] is the time the request and any lateness of
    the pause added to the clock.  The replies are a script supplied by
    the environment; the result is [None] when the script ends while the
    loop is still polling. *)

Record Poll := mkPoll {
  reply : result (option VersionInfo);
  took : Z
}.

(** The test inside the [try]: [response.data?.result?.version]. *)
Definition versionReported (probe : result (option VersionInfo)) : bool :=
  match probe with
  | Ok (Some info) => truthy (info_version info)
  | Ok None => false
  | Throw _ => false    (* caught: engine not ready yet *)
  end.

Fixpoint waitForEngine (elapsed : Z) (polls : list Poll) : option (result unit) :=
  if elapsed <? ENGINE_START_TIMEOUT then
    match polls with
    | [] => None
    | p :: rest =>
        if versionReported (reply p) then Some (Ok tt)
        else waitForEngine (elapsed + took p + 500) rest
    end
  else Some (Throw "Engine startup timeout").

(** *** [ensureRunning], up to its call of [start] *)

Inductive ensured := AlreadyRunning | CallsStart.

Definition ensureRunning (probe : result (option VersionInfo)) : result ensured :=
  await status := getStatus probe in
  if running status then Ok AlreadyRunning else Ok CallsStart.

(** *** [start] and [_doStart] on the event loop

    The main process runs one task at a time, and an [async] method
    gives up control at each [await].  An activation of [start] is
    therefore in one of four places; the manager's fields, the promises
    made by [_doStart] (numbered in order of creation, [None] while
    pending) and the activations (numbered in order of call) make up the
    state, and each event runs one activation up to its next [await]. *)

Inductive Platform := win32 | linux | darwin | unsupported.

(** What [_doStart] finds on the machine. *)
Record Machine := mkMachine {
  os : Platform;
  executableExists : bool;
  winePath : option string
}.

Inductive frame :=
| AwaitingStatus          (* at [await this.getStatus()] *)
| AwaitingOwn (p : nat)   (* at [await this.startPromise], inside [try]/[finally] *)
| Following (p : nat)     (* returned [this.startPromise] and settles as it does *)
| Done (outcome : result unit).

Record Manager := mkManager {
  engineProcess : option nat;
  isStarting : bool;
  startPromise : option nat;
  promises : list (option (result unit));
  spawns : nat;
  callers : list frame
}.

Definition idle : Manager :=
  {| engineProcess := None; isStarting := false; startPromise := None;
     promises := []; spawns := 0; callers := [] |}.

Definition setStartPromise (p : option nat) (m : Manager) : Manager :=
  mkManager (engineProcess m) (isStarting m) p (promises m) (spawns m) (callers m).

Definition setCaller (c : nat) (f : frame) (m : Manager) : Manager :=
  mkManager (engineProcess m) (isStarting m) (startPromise m) (promises m)
            (spawns m) (<[c := f]> (callers m)).

Definition enter (f : frame) (m : Manager) : Manager :=
  mkManager (engineProcess m) (isStarting m) (startPromise m) (promises m)
            (spawns m) (callers m ++ [f]).

(** [_doStart] up to its first [await].  It throws before [spawn] when
    the platform is not supported, the executable is missing, or Wine is
    missing on macOS; [finally] then clears [isStarting] and the promise
    it returns is already rejected (the messages are given without the
    path and the advice they carry).  Otherwise it spawns the child and
    waits on [waitForEngine]. *)
Definition doStart (machine : Machine) (m : Manager) : Manager :=
  let rejected message :=
    mkManager (engineProcess m) false (startPromise m)
              (promises m ++ [Some (Throw message)]) (spawns m) (callers m) in
  match os machine with
  | unsupported => rejected "Unsupported platform"%string
  | _ =>
      if negb (executableExists machine)
      then rejected "Engine executable not found"%string
      else
        match os machine, winePath machine with
        | darwin, None => rejected "Wine not installed"%string
        | _, _ =>
            mkManager (Some (spawns m)) true (startPromise m)
                      (promises m ++ [None]) (S (spawns m)) (callers m)
        end
  end.

Inductive event :=
| Call                                 (* somebody calls [start()] *)
| StatusReply (caller : nat) (probe : result (option VersionInfo))
                                       (* the probe of [caller] has resolved *)
| EngineSettles (p : nat) (ready : bool)
                                       (* [waitForEngine] of attempt [p] ended *)
| Resume (caller : nat).               (* [caller] continues after its promise settled *)

Definition step (machine : Machine) (m : Manager) (ev : event) : Manager :=
  match ev with
  | Call =>
      match startPromise m with
      | Some p => enter (Following p) m
      | None => enter AwaitingStatus m
      end
  | StatusReply caller probe =>
      match callers m !! caller with
      | Some AwaitingStatus =>
          match getStatus probe with
          | Ok status =>
              if running status then setCaller caller (Done (Ok tt)) m
              else
                let p := length (promises m) in
                setCaller caller (AwaitingOwn p)
                  (setStartPromise (Some p) (doStart machine m))
          | Throw message => setCaller caller (Done (Throw message)) m
          end
      | _ => m
      end
  | EngineSettles p ready =>
      match promises m !! p with
      | Some None =>
          let outcome :=
            if ready then Ok tt else Throw "Engine startup timeout"%string in
          mkManager (engineProcess m) false (startPromise m)
                    (<[p := Some outcome]> (promises m)) (spawns m) (callers m)
      | _ => m
      end
  | Resume caller =>
      match callers m !! caller with
      | Some (AwaitingOwn p) =>
          match promises m !! p with
          | Some (Some outcome) =>
              setCaller caller (Done outcome) (setStartPromise None m)
          | _ => m
          end
      | Some (Following p) =>
          match promises m !! p with
          | Some (Some outcome) => setCaller caller (Done outcome) m
          | _ => m
          end
      | _ => m
      end
  end.

Definition run (machine : Machine) (m : Manager) (evs : list event) : Manager :=
  fold_left (step machine) evs m.

(** *** [getStreamStats] and [stopPlayback] *)

Definition getStreamStats (fetch : result (option StatInfo)) : result StreamStats :=
  try_catch
    (await response := fetch in
     let field {A} (f : StatInfo -> option A) : option A :=
       match response with
       | Some result => f result
       | None => None
       end in
     Ok {| status := strOr (field stat_status) "unknown";
           peers := numOr (field stat_peers) 0;
           speedDown := numOr (field stat_speed_down) 0 * 1024;
           speedUp := numOr (field stat_speed_up) 0 * 1024;
           downloaded := numOr (field stat_downloaded) 0;
           uploaded := numOr (field stat_uploaded) 0;
           isLive := isOne (field stat_is_live) |})
    (fun _ => Ok errorStats).

Definition stopPlayback (fetch : result unit) : result unit :=
  try_catch (await _ignored := fetch in Ok tt) (fun _ => Ok tt).

(** *** [killProcessTree] and [getChildProcesses]

    [process.platform] is one of the three platforms the engine ships
    for, or another one.  The processes below a pid are given as the
    listing tool reports them ([pgrep -P] on macOS, [ps --ppid] on
    Linux): each child together with what the tool reports below it.  A
    pid without children makes the tool exit with an error, which
    [getChildProcesses] catches, leaving the empty list. *)

(** The platforms on which children are enumerated. *)
Definition unixLike (os : Platform) : Prop := os = linux \/ os = darwin.

Unset Elimination Schemes.
Inductive ptree := Proc (pid : Z) (children : list ptree).
Set Elimination Schemes.

Definition pidOf (t : ptree) : Z :=
  match t with Proc pid _ => pid end.

Definition childrenOf (t : ptree) : list ptree :=
  match t with Proc _ children => children end.

(** Every pid below the root of a tree. *)
Fixpoint below (t : ptree) : list Z :=
  match t with
  | Proc _ children => flat_map (fun child => pidOf child :: below child) children
  end.

(** For each line of the listing: push the pid, then push what the
    recursive call returns for it. *)
Fixpoint getChildProcesses (os : Platform) (parent : ptree) : list Z :=
  match os with
  | darwin | linux =>
      match parent with
      | Proc _ children =>
          flat_map (fun child => pidOf child :: getChildProcesses os child)
                   children
      end
  | win32 | unsupported => []
  end.

Inductive signal :=
| Delivered (pid : Z)        (* [process.kill(pid, 'SIGKILL')] succeeded *)
| NoSuchProcess (pid : Z)    (* [process.kill] threw: the pid is gone *)
| TaskKill (pid : Z).        (* [taskkill /PID pid /T /F] was run *)

Definition target (s : signal) : Z :=
  match s with
  | Delivered pid => pid
  | NoSuchProcess pid => pid
  | TaskKill pid => pid
  end.

(** The pids that are alive, and the kill calls made so far. *)
Record Host := mkHost {
  alive : list Z;
  log : list signal
}.

Definition isAlive (pid : Z) (h : Host) : bool := existsb (Z.eqb pid) (alive h).

(** Pids on which a kill was called, in order. *)
Definition kills (h : Host) : list Z := map target (log h).

Definition without (pids : list Z) (h : Host) : list Z :=
  List.filter (fun q => negb (existsb (Z.eqb q) pids)) (alive h).

Definition processKill (pid : Z) (h : Host) : result unit * Host :=
  if isAlive pid h
  then (Ok tt, {| alive := without [pid] h; log := log h ++ [Delivered pid] |})
  else (Throw "kill ESRCH", {| alive := alive h; log := log h ++ [NoSuchProcess pid] |}).

(** [taskkill] ends the process and everything below it, and exits with
    an error when the pid does not exist. *)
Definition taskkill (root : ptree) (h : Host) : result unit * Host :=
  if isAlive (pidOf root) h
  then (Ok tt, {| alive := without (pidOf root :: below root) h;
                  log := log h ++ [TaskKill (pidOf root)] |})
  else (Throw "Command failed: taskkill",
        {| alive := alive h; log := log h ++ [TaskKill (pidOf root)] |}).

(** [try { body } catch (e) { }] over the host. *)
Definition swallow (body : Host -> result unit * Host) (h : Host) : result unit * Host :=
  let '(outcome, h1) := body h in
  (try_catch outcome (fun _ => Ok tt), h1).

Fixpoint killEach (childPids : list Z) (h : Host) : result unit * Host :=
  match childPids with
  | [] => (Ok tt, h)
  | childPid :: rest =>
      let '(outcome, h1) := swallow (processKill childPid) h in
      match outcome with
      | Ok _ => killEach rest h1
      | Throw message => (Throw message, h1)
      end
  end.

Definition killProcessTree (os : Platform) (root : ptree) (h : Host)
  : result unit * Host :=
  swallow
    (fun h =>
       match os with
       | win32 => taskkill root h
       | _ =>
           let '(outcome, h1) :=
             swallow (killEach (getChildProcesses os root)) h in
           match outcome with
           | Ok _ => swallow (processKill (pidOf root)) h1
           | Throw message => (Throw message, h1)
           end
       end)
    h.

(** [p] is the pid of a process somewhere below the root of the tree. *)
Inductive descendant : ptree -> Z -> Prop :=
| descendant_child t child :
    In child (childrenOf t) -> descendant t (pidOf child)
| descendant_below t child p :
    In child (childrenOf t) -> descendant child p -> descendant t p.

(** Position of the first occurrence of a pid in an order of kills. *)
Fixpoint position (order : list Z) (pid : Z) : option nat :=
  match order with
  | [] => None
  | q :: rest => if q =? pid then Some 0%nat else option_map S (position rest pid)
  end.

Definition before (order : list Z) (first second : Z) : bool :=
  match position order first, position order second with
  | Some i, Some j => (i <? j)%nat
  | _, _ => false
  end.

(** Bottom-up: every process is signalled after all of its children. *)
Fixpoint bottomUp (order : list Z) (t : ptree) : bool :=
  match t with
  | Proc pid children =>
      forallb (fun child => before order (pidOf child) pid && bottomUp order child)
              children
  end.

(** Sample values used below. *)
Definition linuxBox : Machine :=
  {| os := linux; executableExists := true; winePath := None |}.

Definition refused : result (option VersionInfo) :=
  Throw "connect ECONNREFUSED 127.0.0.1:6878".

(** Two callers enter [start] before either probe has resolved; a third
    and a fourth enter after the first and the second attempt have been
    stored; the first attempt times out and the second finds the engine
    ready. *)
Definition overlappingStarts : list event :=
  [Call; Call; StatusReply 0 refused; Call; StatusReply 1 refused; Call;
   EngineSettles 0 false; Resume 0; Resume 2;
   EngineSettles 1 true; Resume 1; Resume 3].

Definition engineTree : ptree :=
  Proc 4100 [Proc 4101 [Proc 4103 []; Proc 4104 []]; Proc 4102 []].

Definition chain : ptree := Proc 1 [Proc 2 [Proc 3 []]].

Definition allAlive (t : ptree) : Host :=
  {| alive := pidOf t :: below t; log := [] |}.

Definition unknownStats : StreamStats :=
  {| status := "unknown"; peers := 0; speedDown := 0; speedUp := 0;
     downloaded := 0; uploaded := 0; isLive := false |}.

Definition versionless : VersionInfo :=
  {| info_version := None; info_platform := Some "win32"%string |}.

(** *** The clock of [waitForEngine] *)

(** Time on the loop's clock when it tests its condition for the [k]-th
    time (counting from 0): what the turns before it have consumed. *)
Fixpoint clockAt (polls : list Poll) (k : nat) : Z :=
  match k, polls with
  | S k', p :: rest => took p + 500 + clockAt rest k'
  | _, _ => 0
  end.

(** *** Calls of [start] while an attempt is stored *)

Definition probing (f : frame) : bool :=
  match f with
  | AwaitingStatus => true
  | _ => false
  end.

(** No activation is suspended in the status probe. *)
Definition quiet (m : Manager) : Prop :=
  forallb (fun f => negb (probing f)) (callers m) = true.

(** [startPromise] holds attempt [p] after each event of the run. *)
Fixpoint storedThroughout (machine : Machine) (p : nat) (m : Manager)
         (evs : list event) : Prop :=
  match evs with
  | [] => True
  | ev :: rest =>
      startPromise (step machine m ev) = Some p /\
      storedThroughout machine p (step machine m ev) rest
  end.

(** What an activation that entered while attempt [p] was stored can be:
    still following it, or settled with the outcome the promise has. *)
Definition follows (p : nat) (m : Manager) (f : frame) : Prop :=
  f = Following p \/
  exists outcome, f = Done outcome /\ promises m !! p = Some (Some outcome).

(** *** [stop] *)

(** The child process handle: [pid] is [undefined] when the spawn
    failed. *)
Record ChildProcess := mkChild { childPid : option Z }.

Inductive cleanup :=
| KillProcessTree (pid : Z)      (* [this.killProcessTree(pid)] *)
| KillHandle                     (* [this.engineProcess.kill()] *)
| KillAceStreamProcesses         (* the sweep by process name *)
| ForceKillWineServer.

Definition stop (os : Platform) (engineProcess : option ChildProcess)
  : option ChildProcess * list cleanup :=
  let killed :=
    match engineProcess with
    | Some child =>
        match childPid child with
        | Some pid => if pid =? 0 then [KillHandle] else [KillProcessTree pid]
        | None => [KillHandle]
        end
    | None => []
    end in
  let swept :=
    match os with
    | win32 => []
    | _ => [KillAceStreamProcesses]
    end in
  let wine :=
    match os with
    | darwin => [ForceKillWineServer]
    | _ => []
    end in
  (None, killed ++ swept ++ wine).

Definition isSweep (c : cleanup) : bool :=
  match c with KillAceStreamProcesses => true | _ => false end.

Definition isTreeKill (c : cleanup) : bool :=
  match c with KillProcessTree _ | KillHandle => true | _ => false end.

(** *** [startPlayback] *)

Fixpoint skip (n : nat) (s : string) : string :=
  match n, s with
  | O, _ => s
  | S n', String _ rest => skip n' rest
  | S _, EmptyString => EmptyString
  end.

(** [s.replace(pattern, '')] with a string pattern: the first occurrence
    is removed. *)
Fixpoint removeFirst (pattern s : string) : string :=
  if String.prefix pattern s then skip (String.length pattern) s
  else
    match s with
    | EmptyString => EmptyString
    | String c rest => String c (removeFirst pattern rest)
    end.

(** The [response] object of a manifest body, with its documented
    members. *)
Record ManifestInfo := mkManifestInfo {
  playback_url : string;
  stat_url : string;
  command_url : string;
  event_url : string;
  infohash : string;
  playback_session_id : string;
  manifest_is_live : option Z
}.

(** What the manifest request comes back with: a body, of which
    [data?.response] is read, or an error that may carry the engine's own
    message in [error.response?.data?.error]. *)
Inductive manifestReply :=
| ManifestBody (response : option ManifestInfo)
| ManifestFailed (message : string) (engineError : option string).

(** The second component lists the [content_id] of each manifest request
    that was sent. *)
Definition startPlayback (ensured : result unit)
           (manifest : string -> manifestReply) (contentId : string)
  : result PlaybackSession * list string :=
  match ensured with
  | Throw message => (Throw message, [])
  | Ok _ =>
      let cleanId := removeFirst "acestream://" contentId in
      (match manifest cleanId with
       | ManifestBody (Some result) =>
           Ok {| playbackUrl := playback_url result;
                 statUrl := stat_url result;
                 commandUrl := command_url result;
                 eventUrl := event_url result;
                 infoHash := infohash result;
                 sessionId := playback_session_id result;
                 sessionIsLive := isOne (manifest_is_live result) |}
       | ManifestBody None => Throw "Invalid response from Engine"
       | ManifestFailed message engineError =>
           if truthy engineError
           then Throw (strOr engineError "")
           else Throw message
       end,
       [cleanId])
  end.

(** The manifest of the spec's scenario. *)
Definition liveManifest : ManifestInfo :=
  {| playback_url := "u1"; stat_url := "s1"; command_url := "c1";
     event_url := "e1"; infohash := "h1"; playback_session_id := "id1";
     manifest_is_live := Some 1 |}.

End Engine.

(** ** Validation and the [acestream:*] handlers of [setupIpcHandlers] *)

Module Ipc.

(** An argument as it arrives over IPC: the handlers test
    [typeof x === 'string'] before anything else. *)
Inductive value :=
| Text (s : string)
| NotText.

(** The string a validated argument is narrowed to. *)
Definition text (v : value) : string :=
  match v with
  | Text s => s
  | NotText => ""
  end.

Definition inRange (lo hi c : ascii) : bool :=
  ((lo <=? c) && (c <=? hi))%char.

(** The class [[a-fA-F0-9]]. *)
Definition hexDigit (c : ascii) : bool :=
  inRange "a" "f" c || inRange "A" "F" c || inRange "0" "9" c.

(** [^class{n}$] without flags: [n] characters of the class, then the
    end of the input. *)
Fixpoint repeatExactly (class : ascii -> bool) (n : nat) (s : string) : bool :=
  match n, s with
  | O, EmptyString => true
  | S n', String c rest => class c && repeatExactly class n' rest
  | _, _ => false
  end.

Definition CONTENT_ID_REGEX (s : string) : bool := repeatExactly hexDigit 40 s.

Definition ALLOWED_API_HOST : string := "http://127.0.0.1:6878/".

Definition isValidContentId (contentId : value) : bool :=
  match contentId with
  | Text s => CONTENT_ID_REGEX s
  | NotText => false
  end.

(** [url.startsWith(ALLOWED_API_HOST)] *)
Definition isValidApiUrl (url : value) : bool :=
  match url with
  | Text s => String.prefix ALLOWED_API_HOST s
  | NotText => false
  end.

(** What the handlers reach of [engineManager]: [startPlayback], and the
    replies to the requests of [getStreamStats] and [stopPlayback]. *)
Record EngineManager := {
  startPlayback : string -> result PlaybackSession;
  statReply : string -> result (option Engine.StatInfo);
  stopReply : string -> result unit
}.

(** Methods of [engineManager] a handler invoked; no request leaves the
    main process except inside one of them. *)
Inductive call :=
| StartPlayback (contentId : string)
| GetStreamStats (statUrl : string)
| StopPlayback (commandUrl : string).

(** [{ success, error?, session? }] *)
Record Reply := mkReply {
  success : bool;
  error : option string;
  session : option PlaybackSession
}.

(** [acestream:play] *)
Definition play (engineManager : EngineManager) (contentId : value)
  : result Reply * list call :=
  if negb (isValidContentId contentId) then
    (Ok {| success := false;
           error := Some "Invalid content ID format. Expected 40-character hex string."%string;
           session := None |},
     [])
  else
    (try_catch
       (await session := startPlayback engineManager (text contentId) in
        Ok {| success := true; error := None; session := Some session |})
       (fun message =>
          Ok {| success := false; error := Some message; session := None |}),
     [StartPlayback (text contentId)]).

(** [acestream:stats] *)
Definition stats (engineManager : EngineManager) (statUrl : value)
  : result StreamStats * list call :=
  if negb (isValidApiUrl statUrl) then
    (Ok {| status := "error"; peers := 0; speedDown := 0; speedUp := 0;
           downloaded := 0; uploaded := 0; isLive := false |},
     [])
  else
    (Engine.getStreamStats (statReply engineManager (text statUrl)),
     [GetStreamStats (text statUrl)]).

(** [acestream:stop] *)
Definition stop (engineManager : EngineManager) (commandUrl : value)
  : result Reply * list call :=
  if negb (isValidApiUrl commandUrl) then
    (Ok {| success := false;
           error := Some "Invalid command URL"%string;
           session := None |},
     [])
  else
    (await _done := Engine.stopPlayback
                      (stopReply engineManager (text commandUrl ++ "?method=stop")) in
     Ok {| success := true; error := None; session := None |},
     [StopPlayback (text commandUrl)]).

(** The hexadecimal digits, spelled out. *)
Definition hexAlphabet : string := "0123456789abcdefABCDEF".

Definition isHexString (s : string) : bool :=
  forallb (fun c => existsb (Ascii.eqb c) (list_ascii_of_string hexAlphabet))
          (list_ascii_of_string s).

(** Sample values used below. *)
Definition exampleId : string := "94c2fd8fb9bc8f2fc71a2cbe9d4b866f227a0209".

Definition unreachable : EngineManager :=
  {| startPlayback := fun _ => Throw "connect ECONNREFUSED 127.0.0.1:6878";
     statReply := fun _ => Throw "connect ECONNREFUSED 127.0.0.1:6878";
     stopReply := fun _ => Throw "connect ECONNREFUSED 127.0.0.1:6878" |}.

End Ipc.

(** ** The main process: protocol URLs and navigation *)

Module Main.

(** The class [[/?#]]. *)
Definition separator (c : ascii) : bool :=
  ((c =? "/") || (c =? "?") || (c =? "#"))%char.

(** U+2028 and U+2029 as they are encoded in a string of bytes. *)
Definition lineSeparator : string :=
  String (ascii_of_nat 226) (String (ascii_of_nat 128) (String (ascii_of_nat 168) "")).
Definition paragraphSeparator : string :=
  String (ascii_of_nat 226) (String (ascii_of_nat 128) (String (ascii_of_nat 169) "")).

(** Whether [.] fails on some character of the string: line feed,
    carriage return, U+2028 or U+2029. *)
Fixpoint hasLineTerminator (s : string) : bool :=
  match s with
  | EmptyString => false
  | String c rest =>
      (c =? ascii_of_nat 10)%char || (c =? ascii_of_nat 13)%char
      || String.prefix lineSeparator s || String.prefix paragraphSeparator s
      || hasLineTerminator rest
  end.

(** [s.replace(/[/?#].*$/, '')]: the match starts at the first separator
    from which [.] can run to the end of the input, and is cut off. *)
Fixpoint stripTail (s : string) : string :=
  match s with
  | EmptyString => EmptyString
  | String c rest =>
      if separator c && negb (hasLineTerminator rest) then EmptyString
      else String c (stripTail rest)
  end.

Definition extractContentIdFromUrl (url : string) : option string :=
  if (url =? "")%string || negb (String.prefix "acestream://" url) then None
  else
    let contentId := stripTail (Engine.removeFirst "acestream://" url) in
    if Ipc.repeatExactly Ipc.hexDigit 40 contentId then Some contentId else None.

(** Whether a window exists, and the content id kept for it. *)
Record Shell := mkShell {
  mainWindow : bool;
  pendingProtocolUrl : option string
}.

Definition starting : Shell := {| mainWindow := false; pendingProtocolUrl := None |}.

(** The second component lists the content ids sent to the renderer on
    [acestream:open-url]. *)
Definition handleProtocolUrl (url : string) (sh : Shell) : Shell * list string :=
  match extractContentIdFromUrl url with
  | None => (sh, [])
  | Some contentId =>
      if mainWindow sh then (sh, [contentId])
      else ({| mainWindow := false; pendingProtocolUrl := Some contentId |}, [])
  end.

Inductive event :=
| OpenUrl (url : string)                      (* [open-url], or the URL in [process.argv] *)
| SecondInstance (commandLine : list string)  (* [second-instance] *)
| CreateWindow
| DidFinishLoad
| Closed.

Definition step (sh : Shell) (ev : event) : Shell * list string :=
  match ev with
  | OpenUrl url => handleProtocolUrl url sh
  | SecondInstance commandLine =>
      match List.find (String.prefix "acestream://") commandLine with
      | Some url => handleProtocolUrl url sh
      | None => (sh, [])
      end
  | CreateWindow =>
      ({| mainWindow := true; pendingProtocolUrl := pendingProtocolUrl sh |}, [])
  | DidFinishLoad =>
      match pendingProtocolUrl sh with
      | Some contentId =>
          if (contentId =? "")%string then (sh, [])
          else ({| mainWindow := mainWindow sh; pendingProtocolUrl := None |},
                if mainWindow sh then [contentId] else [])
      | None => (sh, [])
      end
  | Closed =>
      ({| mainWindow := false; pendingProtocolUrl := pendingProtocolUrl sh |}, [])
  end.

Fixpoint run (sh : Shell) (evs : list event) : Shell * list string :=
  match evs with
  | [] => (sh, [])
  | ev :: rest =>
      let '(sh1, out1) := step sh ev in
      let '(sh2, out2) := run sh1 rest in
      (sh2, out1 ++ out2)
  end.

(** [will-navigate]: [[VITE_DEV_SERVER_URL, 'file://'].filter(Boolean)]
    and [some(origin => url.startsWith(origin))]. *)
Definition allowedOrigins (VITE_DEV_SERVER_URL : option string) : list string :=
  omap (fun origin => if Engine.truthy origin then origin else None)
       [VITE_DEV_SERVER_URL; Some "file://"%string].

Definition navigationAllowed (VITE_DEV_SERVER_URL : option string) (url : string) : bool :=
  existsb (fun origin => String.prefix origin url) (allowedOrigins VITE_DEV_SERVER_URL).

(** What may follow the content id in a URL: nothing, or a separator and
    then anything [.] can cross. *)
Definition tailOk (tail : string) : Prop :=
  tail = ""%string \/
  exists c rest, tail = String c rest /\ separator c = true /\
                 hasLineTerminator rest = false.

Definition validId (id : string) : Prop :=
  Ipc.isValidContentId (Ipc.Text id) = true.

End Main.

(** ** The statistics panel ([Stats.tsx]) *)

Module StatsPanel.

(** [t] is the translation function of the panel. *)
Definition getStatusText (status : string) (peers speedDown : Z)
           (t : string -> string) : string :=
  if (status =? "dl")%string && (peers =? 0) && (speedDown =? 0)
  then t "stats.statusSearching"%string
  else if (status =? "prebuf")%string then t "stats.statusBuffering"%string
  else if (status =? "dl")%string then t "stats.statusPlaying"%string
  else if (status =? "check")%string then t "stats.statusChecking"%string
  else if (status =? "idle")%string then t "stats.statusIdle"%string
  else if (status =? "error")%string then t "stats.statusError"%string
  else status.

Definition getStatusColor (status : string) : string :=
  if (status =? "dl")%string then "#4ade80"
  else if (status =? "prebuf")%string || (status =? "check")%string then "#fbbf24"
  else if (status =? "error")%string then "#ef4444"
  else "#9ca3af".

(** What the status line shows: the retry line with its attempt number,
    or a status text; and its colour. *)
Inductive line :=
| Retrying (attempt max : nat)
| Plain (text : string).

Definition isSearching (stats : StreamStats) : bool :=
  (status stats =? "dl")%string && (peers stats =? 0) && (speedDown stats =? 0).

Definition isRetrying (stats : StreamStats) (retryCount maxRetries : nat) : bool :=
  (status stats =? "error")%string && (retryCount <? maxRetries)%nat.

Definition statusLine (stats : StreamStats) (retryCount maxRetries : nat)
           (t : string -> string) : line :=
  if isRetrying stats retryCount maxRetries
  then Retrying (retryCount + 1) maxRetries
  else Plain (getStatusText (status stats) (peers stats) (speedDown stats) t).

Definition statusColor (stats : StreamStats) : string :=
  if isSearching stats then "#fbbf24" else getStatusColor (status stats).

End StatsPanel.

(** ** History and bookmarks of [AppContent], and the drop of
    [Bookmarks.tsx] *)

Module Lists.

Definition HISTORY_MAX_ITEMS : nat := 200.

Record HistoryEntry := mkHistory {
  historyId : string;
  historyContentId : string;
  historyName : string;
  startedAt : Z;
  duration : Z;
  historyIsLive : bool
}.

Record BookmarkEntry := mkBookmark {
  bookmarkId : string;
  bookmarkContentId : string;
  bookmarkName : string;
  createdAt : Z;
  bookmarkIsLive : bool
}.

(** [`${Date.now()}-${contentId.substring(0, 8)}`], with the digits of
    [Date.now()] given as [stamp]. *)
Definition makeId (stamp contentId : string) : string :=
  (stamp ++ "-" ++ String.substring 0 8 contentId)%string.

(** The history update of [handlePlay]:
    [[newEntry, ...prev].slice(0, HISTORY_MAX_ITEMS)]. *)
Definition addToHistory (newEntry : HistoryEntry) (prev : list HistoryEntry)
  : list HistoryEntry :=
  take HISTORY_MAX_ITEMS (newEntry :: prev).

Definition handleDeleteHistoryItem (id : string) (prev : list HistoryEntry)
  : list HistoryEntry :=
  List.filter (fun item => negb (historyId item =? id)%string) prev.

Definition isBookmarked (contentId : string) (bookmarkItems : list BookmarkEntry) : bool :=
  existsb (fun b => (bookmarkContentId b =? contentId)%string) bookmarkItems.

(** [handleAddBookmark], called from a render that shows the current
    list: the [bookmarkItems] it tests for a duplicate is the [prev] its
    update receives. *)
Definition handleAddBookmark (stamp : string) (now : Z) (contentId name : string)
           (isLive : bool) (bookmarkItems : list BookmarkEntry)
  : list BookmarkEntry :=
  if isBookmarked contentId bookmarkItems then bookmarkItems
  else
    {| bookmarkId := makeId stamp contentId;
       bookmarkContentId := contentId;
       bookmarkName := name;
       createdAt := now;
       bookmarkIsLive := isLive |} :: bookmarkItems.

Definition handleRemoveBookmark (id : string) (prev : list BookmarkEntry)
  : list BookmarkEntry :=
  List.filter (fun item => negb (bookmarkId item =? id)%string) prev.

(** [handleToggleBookmark], under the same reading: the bookmark found
    by content id is removed by its id. *)
Definition handleToggleBookmark (stamp : string) (now : Z) (contentId name : string)
           (isLive : bool) (bookmarkItems : list BookmarkEntry)
  : list BookmarkEntry :=
  match List.find (fun b => (bookmarkContentId b =? contentId)%string) bookmarkItems with
  | Some existing => handleRemoveBookmark (bookmarkId existing) bookmarkItems
  | None => handleAddBookmark stamp now contentId name isLive bookmarkItems
  end.

Definition renameBookmark (id newName : string) (item : BookmarkEntry) : BookmarkEntry :=
  if (bookmarkId item =? id)%string
  then mkBookmark (bookmarkId item) (bookmarkContentId item) newName
                  (createdAt item) (bookmarkIsLive item)
  else item.

Definition renameHistory (contentId newName : string) (item : HistoryEntry) : HistoryEntry :=
  if (historyContentId item =? contentId)%string
  then mkHistory (historyId item) (historyContentId item) newName
                 (startedAt item) (duration item) (historyIsLive item)
  else item.

(** [handleRenameBookmark]: the bookmark gets the new name, and so do the
    history entries of its content id. *)
Definition handleRenameBookmark (id newName : string)
           (bookmarkItems : list BookmarkEntry) (historyItems : list HistoryEntry)
  : list BookmarkEntry * list HistoryEntry :=
  let bookmark := List.find (fun b => (bookmarkId b =? id)%string) bookmarkItems in
  (map (renameBookmark id newName) bookmarkItems,
   match bookmark with
   | Some b => map (renameHistory (bookmarkContentId b) newName) historyItems
   | None => historyItems
   end).

(** [items.findIndex(item => item.id === id)], [None] for [-1]. *)
Fixpoint findIndex (id : string) (items : list BookmarkEntry) : option nat :=
  match items with
  | [] => None
  | item :: rest =>
      if (bookmarkId item =? id)%string then Some 0%nat
      else option_map S (findIndex id rest)
  end.

(** [handleDrop] of the bookmarks page: the list handed to [onReorder],
    or [None] when it is not called. *)
Definition handleDrop (draggedId : option string) (targetId : string)
           (items : list BookmarkEntry) : option (list BookmarkEntry) :=
  match draggedId with
  | None => None
  | Some dragged =>
      if (dragged =? "")%string || (dragged =? targetId)%string then None
      else
        match findIndex dragged items, findIndex targetId items with
        | Some draggedIndex, Some targetIndex =>
            match items !! draggedIndex with
            | Some draggedItem =>
                let newItems := delete draggedIndex items in
                Some (take targetIndex newItems ++ draggedItem :: drop targetIndex newItems)
            | None => None
            end
        | _, _ => None
        end
  end.

End Lists.

(** ** The cache handlers of [setupIpcHandlers] *)

Module Cache.

(** What [readdirSync] with file types and [statSync] find: a regular
    file with its size, or [None] when it cannot be stat'ed; a directory
    with its entries, or [None] when it cannot be listed; or something
    that is neither (a link, a socket). *)
Unset Elimination Schemes.
Inductive entry :=
| File (name : string) (size : option Z)
| Directory (name : string) (items : option (list entry))
| Other (name : string).
Set Elimination Schemes.

Definition sum (sizes : list Z) : Z := fold_right Z.add 0 sizes.

(** [getDirectorySize] of a directory with the given listing. *)
Fixpoint entrySize (e : entry) : Z :=
  match e with
  | File _ (Some size) => size
  | File _ None => 0
  | Directory _ (Some items) => sum (map entrySize items)
  | Directory _ None => 0
  | Other _ => 0
  end.

Definition getDirectorySize (listing : option (list entry)) : Z :=
  match listing with
  | Some items => sum (map entrySize items)
  | None => 0
  end.

(** The regular files that can be reached and measured, with their
    sizes. *)
Fixpoint measured (e : entry) : list Z :=
  match e with
  | File _ (Some size) => [size]
  | Directory _ (Some items) => flat_map measured items
  | _ => []
  end.

Record SizeReply := mkSizeReply {
  sizeSuccess : bool;
  size : Z
}.

(** [cache:getSize]: [present] is whether the cache directory exists. *)
Definition cacheGetSize (present : bool) (listing : option (list entry)) : SizeReply :=
  if negb present then {| sizeSuccess := true; size := 0 |}
  else {| sizeSuccess := true; size := getDirectorySize listing |}.

(** [clearDirectory]: the listing may throw; each entry is removed unless
    its removal throws ([locked]), and what is left is returned. *)
Definition clearDirectory (listing : result (list entry)) (locked : entry -> bool)
  : result (list entry) :=
  await items := listing in
  Ok (List.filter locked items).

Record ClearReply := mkClearReply {
  clearSuccess : bool;
  clearError : option string
}.

(** [cache:clear], with the entries left in the directory. *)
Definition cacheClear (present : bool) (listing : result (list entry))
           (locked : entry -> bool) : ClearReply * option (list entry) :=
  if negb present then ({| clearSuccess := true; clearError := None |}, None)
  else
    match clearDirectory listing locked with
    | Ok remaining =>
        ({| clearSuccess := true; clearError := None |}, Some remaining)
    | Throw message =>
        ({| clearSuccess := false; clearError := Some message |}, None)
    end.

End Cache.

(** * Properties *)

Section ReconnectLoop.
Import AppContent.


(** The two tests of the interval body, as the handler evaluates them. *)
Lemma onStats_unfold seen s r :
  onStats seen s r =
    let retry := (status s =? "error")%string && negb (isRetryingRef r)
                 && (seen <? MAX_RETRIES)%nat in
    let reset := (status s =? "dl")%string && (0 <? peers s)
                 && (0 <? seen)%nat in
    let r1 := if retry
              then mkRetry (retryCount r) true (Some {| ms := retryDelay seen |})
              else r in
    (if reset then setRetryCount (fun _ => 0%nat) r1 else r1,
     if retry then [SetTimeout (retryDelay seen)] else []).
Proof.
  unfold onStats.
  destruct ((status s =? "error")%string && negb (isRetryingRef r)
            && (seen <? MAX_RETRIES)%nat);
    destruct ((status s =? "dl")%string && (0 <? peers s) && (0 <? seen)%nat);
    reflexivity.
Qed.



(** C4: a sample in the searching state (status [dl], no peers, no
    download speed) leaves the retry state as it was and schedules
    nothing, whatever count the handler holds; a sample that schedules a
    retry has status [error]. *)
Theorem searching_sample_schedules_nothing :
  (forall seen r s,
      status s = "dl"%string -> peers s = 0 -> speedDown s = 0 ->
      onStats seen s r = (r, []) /\ step r (Sample s) = (r, [])) /\
  (forall seen r s d,
      In (SetTimeout d) (snd (onStats seen s r)) -> status s = "error"%string) /\
  (forall r s d,
      In (SetTimeout d) (snd (step r (Sample s))) -> status s = "error"%string).
Proof.
  assert (Hsearch : forall seen r s,
             status s = "dl"%string -> peers s = 0 -> onStats seen s r = (r, [])).
  { intros seen r s Hst Hp. rewrite onStats_unfold, Hst, Hp. reflexivity. }
  assert (Herr : forall seen r s d,
             In (SetTimeout d) (snd (onStats seen s r)) -> status s = "error"%string).
  { intros seen r s d. rewrite onStats_unfold. cbn [snd].
    destruct (String.eqb_spec (status s) "error") as [He|He]; [auto|].
    cbn. tauto. }
  split; [|split].
  - intros seen r s Hst Hp _. split; [auto|].
    unfold step. rewrite Hsearch by assumption.
    unfold rerender. rewrite Nat.eqb_refl. reflexivity.
  - exact Herr.
  - intros r s d. unfold step.
    destruct (onStats (retryCount r) s r) as [r1 out] eqn:E.
    cbn [snd]. intros Hin. apply (Herr (retryCount r) r s d).
    rewrite E. exact Hin.
Qed.

Lemma searching_sample_schedules_nothing_witness :
  step (mkRetry 2 false None) (Sample searching) = (mkRetry 2 false None, []) /\
  status errorStats = "error"%string.
Proof.
  destruct searching_sample_schedules_nothing as (Hs & _ & Hstep).
  split.
  - apply (Hs 2%nat (mkRetry 2 false None) searching); reflexivity.
  - apply (Hstep initial errorStats (Some 3000)). simpl. left. reflexivity.
Defined.

(** What a healthy sample does in a callback that holds [seen]. *)
Lemma onStats_recovery seen s r :
  isRecovery s = true ->
  onStats seen s r
    = (if (0 <? seen)%nat then setRetryCount (fun _ => 0%nat) r else r, []).
Proof.
  unfold isRecovery. intros H. rewrite onStats_unfold. cbv zeta.
  pose proof H as Hs. apply andb_true_iff in Hs as [Hs _].
  apply String.eqb_eq in Hs.
  assert (He : (status s =? "error")%string = false) by (rewrite Hs; reflexivity).
  rewrite He, H. reflexivity.
Qed.

(** C5: the reset tests the count the interval callback captured before
    it waited for [getStats], not the counter.  A callback that was sent
    at count 0, waits while a failed restart raises the counter to 1, and
    then receives a healthy sample leaves the counter at 1: no callback
    holding 0 ever resets.  A callback that holds a count above zero does
    reset, and so does every callback of the latest render while the
    counter is above zero. *)
Theorem stale_callback_skips_reset :
  let before := fst (Polling.run Polling.start Polling.acrossRestart) in
  before = Polling.mkLoop (mkRetry 1 false None) [0%nat] false 0 0 /\
  isRecovery healthy = true /\
  Polling.step before (Polling.Stats 0 healthy)
    = (Polling.mkLoop (mkRetry 1 false None) [] false 0 0, []) /\
  (forall s r, retryCount (fst (onStats 0 s r)) = retryCount r) /\
  (forall seen s r, isRecovery s = true -> (0 < seen)%nat ->
                    retryCount (fst (onStats seen s r)) = 0%nat) /\
  (forall s r, isRecovery s = true -> (0 < retryCount r)%nat ->
               retryCount (fst (step r (Sample s))) = 0%nat).
Proof.
  cbv zeta. split; [reflexivity|]. split; [reflexivity|]. split; [reflexivity|].
  split; [|split].
  - intros s r. rewrite onStats_unfold. cbv zeta.
    rewrite andb_false_r.
    destruct ((status s =? "error")%string && negb (isRetryingRef r)
              && (0 <? MAX_RETRIES)%nat); reflexivity.
  - intros seen s r Hs Hseen. rewrite (onStats_recovery seen s r Hs).
    replace (0 <? seen)%nat with true by (symmetry; apply Nat.ltb_lt; exact Hseen).
    reflexivity.
  - intros s r Hs Hc. unfold step. rewrite (onStats_recovery _ s r Hs).
    replace (0 <? retryCount r)%nat with true
      by (symmetry; apply Nat.ltb_lt; exact Hc).
    unfold rerender, setRetryCount. cbn [retryCount].
    destruct (0 =? retryCount r)%nat; reflexivity.
Qed.

(** *** The cap on restart attempts *)

(** The test against the cap reads the count the handler captured, not
    the state: a handler that still holds 4 schedules a retry although the
    state has reached 5.  [step] hands every sample the current count, and
    the results below are about such runs. *)
Remark captured_count_decides :
  onStats 4 errorStats (mkRetry 5 false None)
    = (mkRetry 5 true (Some {| ms := Some 30000 |}), [SetTimeout (Some 30000)]) /\
  step (mkRetry 5 false None) (Sample errorStats) = (mkRetry 5 false None, []).
Proof. split; reflexivity. Qed.

Lemma initial_guarded : guarded initial.
Proof. unfold guarded, initial, MAX_RETRIES; cbn. repeat split; [lia | discriminate | congruence]. Qed.

Lemma rerender_guarded before r : guarded r -> guarded (rerender before r).
Proof.
  intros (Hle & Hheld & Htimer). unfold rerender.
  destruct (retryCount r =? before)%nat; [repeat split; assumption|].
  unfold guarded; cbn [retryCount isRetryingRef retryTimeoutRef].
  repeat split; [assumption | assumption | congruence].
Qed.

Lemma onStats_guarded r s : guarded r -> guarded (fst (onStats (retryCount r) s r)).
Proof.
  destruct r as [c g t]. intros (Hle & Hheld & Htimer).
  rewrite onStats_unfold. cbv zeta.
  cbn [fst retryCount isRetryingRef retryTimeoutRef] in *.
  destruct (Nat.ltb_spec c MAX_RETRIES) as [Hlt|Hge];
    destruct (status s =? "error")%string; destruct g;
    destruct ((status s =? "dl")%string && (0 <? peers s) && (0 <? c)%nat);
    cbn [andb negb]; unfold guarded, setRetryCount;
    cbn [retryCount isRetryingRef retryTimeoutRef];
    unfold MAX_RETRIES in *; repeat split; intros;
    try lia; try congruence; auto.
Qed.

Lemma onRetryTimeout_fields o r :
  onRetryTimeout o r = mkRetry (S (retryCount r)) false (retryTimeoutRef r).
Proof. destruct o; reflexivity. Qed.

Lemma step_guarded r ev : guarded r -> guarded (fst (step r ev)).
Proof.
  intros Hr. destruct ev as [s | o]; unfold step.
  - pose proof (onStats_guarded r s Hr) as H.
    destruct (onStats (retryCount r) s r) as [r1 out]. cbn [fst] in *.
    apply rerender_guarded, H.
  - destruct Hr as (Hle & Hheld & Htimer).
    destruct (retryTimeoutRef r) as [t|] eqn:Et; cbn [fst].
    + assert (Hg : isRetryingRef r = true) by (apply Htimer; congruence).
      specialize (Hheld Hg). rewrite onRetryTimeout_fields.
      unfold rerender. cbn [retryCount].
      destruct (Nat.eqb_spec (S (retryCount r)) (retryCount r)); [lia|].
      unfold guarded; cbn [retryCount isRetryingRef retryTimeoutRef].
      repeat split; [lia | discriminate | congruence].
    + split; [|split]; [assumption | assumption | rewrite Et; congruence].
Qed.

Lemma run_guarded evs : forall r, guarded r -> guarded (fst (run r evs)).
Proof.
  induction evs as [|ev evs IH]; intros r Hr; [exact Hr|].
  cbn [run]. pose proof (step_guarded r ev Hr) as H1.
  destruct (step r ev) as [r1 out1]. cbn [fst] in H1.
  specialize (IH r1 H1). destruct (run r1 evs) as [r2 out2]. exact IH.
Qed.

Lemma attempts_app a b : attempts (a ++ b) = (attempts a + attempts b)%nat.
Proof. unfold attempts. rewrite List.filter_app, List.length_app. reflexivity. Qed.

Lemma schedules_app a b : schedules (a ++ b) = (schedules a + schedules b)%nat.
Proof. unfold schedules. rewrite List.filter_app, List.length_app. reflexivity. Qed.

(** Without a recovery sample each event either leaves the count, or is
    the pending timer and adds one; a schedule takes the guard and the
    timer releases it. *)
Lemma step_no_recovery r ev :
  guarded r -> recovers ev = false ->
  let '(r1, out) := step r ev in
  retryCount r1 = (retryCount r + attempts out)%nat /\
  (schedules out + retryCount r + held r = retryCount r1 + held r1)%nat.
Proof.
  intros (Hle & Hheld & Htimer) Hrec. destruct ev as [s | o]; unfold step.
  - cbn in Hrec. unfold isRecovery in Hrec. rewrite onStats_unfold. cbv zeta.
    rewrite Hrec. cbn [andb].
    destruct ((status s =? "error")%string && negb (isRetryingRef r)
              && (retryCount r <? MAX_RETRIES)%nat) eqn:E;
      unfold rerender; cbn; rewrite Nat.eqb_refl; cbn; unfold held; cbn.
    + apply andb_true_iff in E as [E _]. apply andb_true_iff in E as [_ E].
      apply negb_true_iff in E. rewrite E. lia.
    + lia.
  - destruct (retryTimeoutRef r) as [t|] eqn:Et.
    + assert (Hg : isRetryingRef r = true) by (apply Htimer; congruence).
      rewrite onRetryTimeout_fields. unfold rerender, held. rewrite Hg.
      cbn [retryCount].
      destruct (Nat.eqb_spec (S (retryCount r)) (retryCount r)); [lia|].
      cbn. lia.
    + cbn. lia.
Qed.

Lemma held_guarded r : guarded r -> (retryCount r + held r <= MAX_RETRIES)%nat.
Proof.
  intros (Hle & Hheld & _). unfold held.
  destruct (isRetryingRef r); [specialize (Hheld eq_refl)|]; lia.
Qed.

Lemma run_no_recovery evs :
  forall r, guarded r -> noRecovery evs = true ->
  let '(r', out) := run r evs in
  retryCount r' = (retryCount r + attempts out)%nat /\
  (schedules out + retryCount r + held r = retryCount r' + held r')%nat.
Proof.
  induction evs as [|ev evs IH]; intros r Hr Hn.
  - cbn. lia.
  - cbn in Hn. apply andb_true_iff in Hn as [Hev Hn].
    apply negb_true_iff in Hev. cbn [run].
    pose proof (step_no_recovery r ev Hr Hev) as Hs.
    pose proof (step_guarded r ev Hr) as Hg.
    destruct (step r ev) as [r1 out1]. cbn [fst] in Hg.
    specialize (IH r1 Hg Hn). destruct (run r1 evs) as [r2 out2].
    rewrite attempts_app, schedules_app. lia.
Qed.

(** One error sample at rest, then its timer. *)
Lemma error_round k s o :
  isError s = true ->
  run (mkRetry k false None) (errorRound (s, o)) =
    if (k <? MAX_RETRIES)%nat
    then (mkRetry (S k) false None, [SetTimeout (retryDelay k); StopThenPlay o])
    else (mkRetry k false None, []).
Proof.
  unfold isError. intros He. apply String.eqb_eq in He.
  unfold errorRound. cbn [fst snd run]. unfold step at 1.
  rewrite onStats_unfold. cbv zeta. rewrite He.
  cbn [retryCount isRetryingRef String.eqb Ascii.eqb Bool.eqb andb negb].
  unfold rerender at 1.
  destruct (k <? MAX_RETRIES)%nat eqn:Ek;
    cbn [retryCount]; rewrite Nat.eqb_refl; unfold step;
    cbn [retryTimeoutRef app]; [|reflexivity].
  rewrite onRetryTimeout_fields. unfold rerender. cbn [retryCount].
  destruct (Nat.eqb_spec (S k) k); [lia|]. reflexivity.
Qed.

Lemma run_app evs1 evs2 r :
  run r (evs1 ++ evs2) =
    let '(r1, out1) := run r evs1 in
    let '(r2, out2) := run r1 evs2 in (r2, out1 ++ out2).
Proof.
  revert r. induction evs1 as [|ev evs1 IH]; intros r; cbn [run app].
  - destruct (run r evs2); reflexivity.
  - destruct (step r ev) as [r1 out1]. rewrite IH.
    destruct (run r1 evs1) as [r2 out2]. destruct (run r2 evs2) as [r3 out3].
    rewrite app_assoc. reflexivity.
Qed.

Lemma error_rounds rounds :
  forall k, (k <= MAX_RETRIES)%nat ->
  Forall (fun p => isError (fst p) = true) rounds ->
  let '(r', out) := run (mkRetry k false None) (flat_map errorRound rounds) in
  r' = mkRetry (Nat.min (k + length rounds) MAX_RETRIES) false None /\
  attempts out = (Nat.min (k + length rounds) MAX_RETRIES - k)%nat /\
  schedules out = (Nat.min (k + length rounds) MAX_RETRIES - k)%nat.
Proof.
  induction rounds as [|[s o] rounds IH]; intros k Hk Hall.
  - cbn. replace (k + 0)%nat with k by lia.
    replace (Nat.min k MAX_RETRIES) with k by lia.
    repeat split; unfold attempts, schedules; cbn; lia.
  - inversion Hall as [|? ? Hs Hrest]; subst. cbn [fst] in Hs.
    change (flat_map errorRound ((s, o) :: rounds))
      with (errorRound (s, o) ++ flat_map errorRound rounds).
    rewrite run_app, (error_round k s o Hs).
    destruct (Nat.ltb_spec k MAX_RETRIES) as [Hlt|Hge].
    + specialize (IH (S k) Hlt Hrest).
      destruct (run (mkRetry (S k) false None) (flat_map errorRound rounds))
        as [r2 out2]. destruct IH as (-> & Ha & Hsch).
      cbn [length]. replace (k + S (length rounds))%nat
        with (S k + length rounds)%nat by lia.
      split; [reflexivity|].
      rewrite attempts_app, schedules_app, Ha, Hsch.
      unfold attempts, schedules; cbn. unfold MAX_RETRIES in *. lia.
    + assert (k = MAX_RETRIES) by lia. subst k.
      specialize (IH MAX_RETRIES (Nat.le_refl _) Hrest).
      destruct (run (mkRetry MAX_RETRIES false None) (flat_map errorRound rounds))
        as [r2 out2]. destruct IH as (-> & Ha & Hsch).
      cbn [length app]. rewrite Ha, Hsch.
      unfold MAX_RETRIES. repeat split; try f_equal; lia.
Qed.

(** C2, as stated, fails: five consecutive error samples that arrive
    while the first retry is still pending schedule one retry, and one
    restart attempt is made when its timer runs. *)
Lemma five_error_samples_one_attempt :
  let samples := repeat (Sample errorStats) 5 in
  length samples = 5%nat /\
  forallb (fun ev => match ev with
                     | Sample s => isError s
                     | TimerFired _ => false
                     end) samples = true /\
  noRecovery samples = true /\
  run initial samples
    = (mkRetry 0 true (Some {| ms := Some 3000 |}), [SetTimeout (Some 3000)]) /\
  attempts (snd (run initial (samples ++ [TimerFired RestartFailed]))) = 1%nat /\
  attempts (snd (run initial (samples ++ [TimerFired RestartFailed]))) <> 5%nat.
Proof. cbv zeta. repeat split; try reflexivity. vm_compute. discriminate. Qed.

(** C2, amended: the attempt count never exceeds 5; in a run without a
    recovery sample the attempts made equal the count, so at most 5
    attempts are made and at most 5 retries are scheduled; and when each
    error sample is followed by its retry timer before the next sample,
    [n] error samples make [min n 5] attempts: exactly 5 for five samples
    and no sixth for more. *)
Theorem reconnect_attempts_capped :
  MAX_RETRIES = 5%nat /\
  (forall evs, (retryCount (fst (run initial evs)) <= 5)%nat) /\
  (forall evs, noRecovery evs = true ->
     attempts (snd (run initial evs)) = retryCount (fst (run initial evs)) /\
     (attempts (snd (run initial evs)) <= 5)%nat /\
     (schedules (snd (run initial evs)) <= 5)%nat) /\
  (forall rounds, Forall (fun p => isError (fst p) = true) rounds ->
     attempts (snd (run initial (flat_map errorRound rounds)))
       = Nat.min (length rounds) 5 /\
     schedules (snd (run initial (flat_map errorRound rounds)))
       = Nat.min (length rounds) 5 /\
     fst (run initial (flat_map errorRound rounds))
       = mkRetry (Nat.min (length rounds) 5) false None).
Proof.
  split; [reflexivity|]. split; [|split].
  - intros evs. apply (run_guarded evs initial initial_guarded).
  - intros evs Hn.
    pose proof (run_no_recovery evs initial initial_guarded Hn) as H.
    pose proof (run_guarded evs initial initial_guarded) as Hg.
    destruct (run initial evs) as [r' out]. cbn [fst snd] in *.
    destruct H as [Hc Hs]. pose proof (held_guarded r' Hg) as Hh.
    pose proof Hg as (Hle & _). unfold MAX_RETRIES in *.
    change (retryCount initial) with 0%nat in *.
    change (held initial) with 0%nat in *. lia.
  - intros rounds Hall.
    pose proof (error_rounds rounds 0%nat (Nat.le_0_l _) Hall) as H.
    unfold initial.
    destruct (run (mkRetry 0 false None) (flat_map errorRound rounds)) as [r' out].
    cbn [fst snd]. destruct H as (-> & Ha & Hs).
    unfold MAX_RETRIES in *. cbn [Nat.add] in *.
    rewrite Ha, Hs, Nat.sub_0_r. auto.
Qed.

Lemma reconnect_attempts_capped_witness :
  attempts (snd (run initial (flat_map errorRound sixErrorRounds))) = 5%nat /\
  (schedules (snd (run initial (repeat (Sample errorStats) 9))) <= 5)%nat.
Proof.
  destruct reconnect_attempts_capped as (_ & _ & Hrun & Hrounds). split.
  - apply (Hrounds sixErrorRounds). repeat constructor.
  - apply (Hrun (repeat (Sample errorStats) 9)). reflexivity.
Defined.

End ReconnectLoop.

Section EngineReplies.
Import Engine.

(** *** Stream statistics *)

(** C6, as stated, fails for a malformed body: a reply that arrives
    without a [response] object is not a failure of the request, and the
    statistics built from it carry status [unknown], not [error]. *)
Lemma malformed_body_gives_unknown :
  getStreamStats (Ok None) = Ok unknownStats /\
  getStreamStats (Ok None) <> Ok errorStats /\
  status unknownStats = "unknown"%string.
Proof. repeat split. discriminate. Qed.

(** C6, amended: [getStreamStats] never throws; when the request itself
    fails (no connection, timeout, error status) it returns the
    synthetic error statistics; a body without a [response] object
    yields status [unknown] with every number zero and [isLive] false. *)
Theorem getStreamStats_never_throws :
  (forall fetch, returns (getStreamStats fetch)) /\
  (forall message, getStreamStats (Throw message) = Ok errorStats) /\
  errorStats = mkStreamStats "error" 0 0 0 0 0 false /\
  getStreamStats (Ok None) = Ok (mkStreamStats "unknown" 0 0 0 0 0 false).
Proof.
  split; [|repeat split].
  intros [response | message]; unfold returns, getStreamStats; cbn; eauto.
Qed.

(** *** Status probe and readiness poll *)

Lemma waitForEngine_not_ready polls :
  forall elapsed,
    Forall (fun p => versionReported (reply p) = false) polls ->
    waitForEngine elapsed polls <> Some (Ok tt).
Proof.
  induction polls as [|p polls IH]; intros elapsed Hall; cbn [waitForEngine];
    destruct (elapsed <? ENGINE_START_TIMEOUT); try discriminate.
  inversion Hall as [|? ? Hp Hrest]; subst. rewrite Hp. apply IH, Hrest.
Qed.

Lemma waitForEngine_times_out polls :
  forall elapsed,
    Forall (fun p => versionReported (reply p) = false /\ 0 <= took p) polls ->
    ENGINE_START_TIMEOUT <= elapsed + 500 * Z.of_nat (length polls) ->
    waitForEngine elapsed polls = Some (Throw "Engine startup timeout").
Proof.
  induction polls as [|p polls IH]; intros elapsed Hall Hlen; cbn [waitForEngine];
    destruct (Z.ltb_spec elapsed ENGINE_START_TIMEOUT) as [Hlt|Hge];
    try reflexivity.
  - cbn [length] in Hlen. lia.
  - inversion Hall as [|? ? [Hp Ht] Hrest]; subst. rewrite Hp.
    apply IH; [exact Hrest|]. cbn [length] in Hlen. lia.
Qed.

(** C10: a status body whose [result] is there but carries no version
    makes [getStatus] report a running engine with no version, and
    [ensureRunning] return without starting; the readiness poll of
    [start] does not accept it, and a poll that only ever sees such
    bodies ends in the startup timeout. *)
Theorem result_without_version_running_but_never_ready :
  forall info,
    info_version info = None ->
    getStatus (Ok (Some info))
      = Ok (mkStatus true None (info_platform info) None) /\
    ensureRunning (Ok (Some info)) = Ok AlreadyRunning /\
    versionReported (Ok (Some info)) = false /\
    (forall polls elapsed,
        Forall (fun p => reply p = Ok (Some info)) polls ->
        waitForEngine elapsed polls <> Some (Ok tt)) /\
    (forall polls,
        Forall (fun p => reply p = Ok (Some info) /\ 0 <= took p) polls ->
        (60 <= length polls)%nat ->
        waitForEngine 0 polls = Some (Throw "Engine startup timeout")).
Proof.
  intros info Hv.
  assert (Hnot : versionReported (Ok (Some info)) = false)
    by (cbn; rewrite Hv; reflexivity).
  repeat split.
  - unfold getStatus. cbn. rewrite Hv. reflexivity.
  - exact Hnot.
  - intros polls elapsed Hall. apply waitForEngine_not_ready.
    eapply List.Forall_impl; [|exact Hall]. cbn. intros p ->. exact Hnot.
  - intros polls Hall Hlen. apply waitForEngine_times_out.
    + eapply List.Forall_impl; [|exact Hall]. cbn. intros p [-> Ht]. auto.
    + unfold ENGINE_START_TIMEOUT. lia.
Qed.

Lemma result_without_version_running_but_never_ready_witness :
  getStatus (Ok (Some versionless)) = Ok (mkStatus true None (Some "win32"%string) None) /\
  waitForEngine 0 (repeat (mkPoll (Ok (Some versionless)) 0) 60)
    = Some (Throw "Engine startup timeout").
Proof.
  destruct (result_without_version_running_but_never_ready versionless eq_refl)
    as (Hs & _ & _ & _ & Ht).
  split; [exact Hs|]. apply Ht.
  - apply List.Forall_forall. intros p Hin. apply repeat_spec in Hin. subst p.
    cbn. split; [reflexivity | lia].
  - rewrite repeat_length. lia.
Defined.

End EngineReplies.

Section IpcValidation.
Import Ipc.

Lemma hexDigit_alphabet c :
  hexDigit c = existsb (Ascii.eqb c) (list_ascii_of_string hexAlphabet).
Proof.
  destruct c as [b0 b1 b2 b3 b4 b5 b6 b7].
  destruct b0, b1, b2, b3, b4, b5, b6, b7; reflexivity.
Qed.

Lemma repeatExactly_spec class n :
  forall s,
    repeatExactly class n s = true <->
    String.length s = n /\ forallb class (list_ascii_of_string s) = true.
Proof.
  induction n as [|n IH]; intros [|c rest]; cbn [repeatExactly String.length
    list_ascii_of_string forallb].
  - tauto.
  - split; [discriminate | intros [H _]; discriminate].
  - split; [discriminate | intros [H _]; discriminate].
  - rewrite andb_true_iff, IH. split.
    + intros (Hc & Hl & Hr). rewrite Hc, Hl. auto.
    + intros (Hl & Hr). apply andb_true_iff in Hr as [Hc Hr].
      injection Hl as Hl. auto.
Qed.

Lemma isHexString_class s :
  isHexString s = forallb hexDigit (list_ascii_of_string s).
Proof.
  unfold isHexString.
  induction (list_ascii_of_string s) as [|c l IH]; cbn [forallb].
  - reflexivity.
  - rewrite IH, hexDigit_alphabet. reflexivity.
Qed.

Lemma isValidContentId_spec contentId :
  isValidContentId contentId = true <->
  exists s, contentId = Text s /\ String.length s = 40%nat /\ isHexString s = true.
Proof.
  destruct contentId as [s|]; cbn [isValidContentId]; unfold CONTENT_ID_REGEX.
  - rewrite repeatExactly_spec, <- isHexString_class. split.
    + intros [Hl Hh]. exists s. auto.
    + intros (s' & Heq & Hl & Hh). injection Heq as ->. auto.
  - split; [discriminate | intros (s & Heq & _); discriminate].
Qed.

Lemma prefix_spec p :
  forall s, String.prefix p s = true <-> exists rest, s = (p ++ rest)%string.
Proof.
  induction p as [|a p IH]; intros s; cbn [String.prefix].
  - split; [intros _; exists s; reflexivity | destruct s; reflexivity].
  - destruct s as [|b s].
    + split; [discriminate | intros [rest H]; discriminate].
    + cbn [String.prefix]. destruct (ascii_dec a b) as [->|Hne].
      * rewrite IH. split; intros [rest H]; exists rest.
        -- cbn. rewrite H. reflexivity.
        -- cbn in H. injection H as H. exact H.
      * split; [discriminate|].
        intros [rest H]. cbn in H. injection H as Hab _. congruence.
Qed.

Lemma isValidApiUrl_spec url :
  isValidApiUrl url = true <->
  exists rest, url = Text ("http://127.0.0.1:6878/" ++ rest)%string.
Proof.
  destruct url as [s|]; cbn [isValidApiUrl].
  - unfold ALLOWED_API_HOST. rewrite prefix_spec. split.
    + intros [rest ->]. exists rest. reflexivity.
    + intros [rest Heq]. injection Heq as ->. exists rest. reflexivity.
  - split; [discriminate | intros [rest H]; discriminate].
Qed.

(** C7: a content id that is not a string of exactly forty hexadecimal
    digits is answered with [success: false] and the format message, and
    no method of the engine manager is invoked; a content id that is one
    is handed unchanged to [startPlayback], whose outcome is the reply. *)
Theorem invalid_content_id_rejected_before_engine :
  (forall contentId,
      isValidContentId contentId = true <->
      exists s, contentId = Text s /\ String.length s = 40%nat /\
                isHexString s = true) /\
  (forall engineManager contentId,
      isValidContentId contentId = false ->
      play engineManager contentId
        = (Ok (mkReply false
                 (Some "Invalid content ID format. Expected 40-character hex string."%string)
                 None),
           [])) /\
  (forall engineManager s,
      isValidContentId (Text s) = true ->
      snd (play engineManager (Text s)) = [StartPlayback s] /\
      fst (play engineManager (Text s))
        = match startPlayback engineManager s with
          | Ok session => Ok (mkReply true None (Some session))
          | Throw message => Ok (mkReply false (Some message) None)
          end).
Proof.
  split; [exact isValidContentId_spec|]. split.
  - intros em contentId H. unfold play. rewrite H. reflexivity.
  - intros em s H. unfold play. rewrite H. cbn [negb fst snd text].
    split; [reflexivity|]. destruct (startPlayback em s); reflexivity.
Qed.

Lemma invalid_content_id_rejected_before_engine_witness :
  snd (play unreachable (Text ("acestream://" ++ exampleId))) = [] /\
  snd (play unreachable NotText) = [] /\
  snd (play unreachable (Text exampleId)) = [StartPlayback exampleId].
Proof.
  destruct invalid_content_id_rejected_before_engine as (_ & Hbad & Hgood).
  split; [|split].
  - rewrite (Hbad unreachable (Text ("acestream://" ++ exampleId)));
      reflexivity.
  - rewrite (Hbad unreachable NotText); reflexivity.
  - apply (Hgood unreachable exampleId). reflexivity.
Defined.

(** C8: a stats or command URL that is not a string beginning with
    [http://127.0.0.1:6878/] never reaches the engine manager: the stats
    handler returns the error statistics and the stop handler returns
    [success: false] with a message, both as ordinary results. *)
Theorem foreign_url_rejected_before_network :
  (forall url,
      isValidApiUrl url = true <->
      exists rest, url = Text ("http://127.0.0.1:6878/" ++ rest)%string) /\
  (forall engineManager url,
      isValidApiUrl url = false ->
      stats engineManager url = (Ok errorStats, []) /\
      stop engineManager url
        = (Ok (mkReply false (Some "Invalid command URL"%string) None), [])) /\
  errorStats = mkStreamStats "error" 0 0 0 0 0 false.
Proof.
  split; [exact isValidApiUrl_spec|]. split; [|reflexivity].
  intros em url H. unfold stats, stop. rewrite H. split; reflexivity.
Qed.

Lemma foreign_url_rejected_before_network_witness :
  stats unreachable (Text "http://127.0.0.1:6878.evil.example/stat") = (Ok errorStats, []) /\
  stop unreachable (Text "http://localhost:6878/ace/cmd")
    = (Ok (mkReply false (Some "Invalid command URL"%string) None), []).
Proof.
  destruct foreign_url_rejected_before_network as (_ & Hbad & _). split.
  - apply (Hbad unreachable (Text "http://127.0.0.1:6878.evil.example/stat")).
    reflexivity.
  - apply (Hbad unreachable (Text "http://localhost:6878/ace/cmd")).
    reflexivity.
Defined.

End IpcValidation.

Section ProcessTree.
Import Engine.

Lemma ptree_induction (P : ptree -> Prop) :
  (forall pid children, Forall P children -> P (Proc pid children)) ->
  forall t, P t.
Proof.
  intros H. fix IH 1. intros [pid children]. apply H.
  induction children as [|child rest IHrest]; constructor;
    [apply IH | exact IHrest].
Qed.

Lemma getChildProcesses_unix os pid children :
  unixLike os ->
  getChildProcesses os (Proc pid children)
    = flat_map (fun child => pidOf child :: getChildProcesses os child) children.
Proof. intros [-> | ->]; reflexivity. Qed.

Lemma getChildProcesses_below os t :
  unixLike os -> getChildProcesses os t = below t.
Proof.
  intros Hos. induction t as [pid children IH] using ptree_induction.
  rewrite getChildProcesses_unix by exact Hos. cbn [below].
  induction IH as [|child rest Hchild _ IHrest]; cbn [flat_map]; [reflexivity|].
  rewrite Hchild, IHrest. reflexivity.
Qed.

Lemma descendant_below t :
  forall p, descendant t p <-> In p (below t).
Proof.
  induction t as [pid children IH] using ptree_induction.
  intros p. cbn [below]. rewrite in_flat_map. split.
  - intros H. inversion H as [t child Hin | t child q Hin Hq]; subst;
      cbn [childrenOf] in Hin; exists child; split; try exact Hin.
    + left. reflexivity.
    + right. rewrite List.Forall_forall in IH. apply (IH child Hin), Hq.
  - intros (child & Hin & [Heq | Hbelow]).
    + subst p. apply descendant_child. exact Hin.
    + apply descendant_below with child; [exact Hin|].
      rewrite List.Forall_forall in IH. apply (IH child Hin), Hbelow.
Qed.

Lemma swallow_ok body h : fst (swallow body h) = Ok tt.
Proof.
  unfold swallow. destruct (body h) as [[[]|message] h1]; reflexivity.
Qed.

Lemma swallow_host body h : snd (swallow body h) = snd (body h).
Proof. unfold swallow. destruct (body h) as [outcome h1]. reflexivity. Qed.

Lemma not_in_without pids h p : In p pids -> ~ In p (without pids h).
Proof.
  intros Hin Hw. unfold without in Hw. apply List.filter_In in Hw as [_ Hw].
  apply negb_true_iff in Hw.
  assert (existsb (Z.eqb p) pids = true) as Hex
      by (apply existsb_exists; exists p; split; [exact Hin | apply Z.eqb_refl]).
  congruence.
Qed.

Lemma processKill_kills p h : kills (snd (processKill p h)) = kills h ++ [p].
Proof.
  unfold processKill, kills. destruct (isAlive p h); cbn [snd log];
    rewrite List.map_app; reflexivity.
Qed.

Lemma processKill_dead p h : ~ In p (alive (snd (processKill p h))).
Proof.
  unfold processKill. destruct (isAlive p h) eqn:E; cbn [snd alive].
  - apply not_in_without. left. reflexivity.
  - intros Hin. unfold isAlive in E.
    assert (existsb (Z.eqb p) (alive h) = true) as Hex
        by (apply existsb_exists; exists p; split; [exact Hin | apply Z.eqb_refl]).
    congruence.
Qed.

Lemma processKill_alive p h q :
  In q (alive (snd (processKill p h))) -> In q (alive h).
Proof.
  unfold processKill. destruct (isAlive p h); cbn [snd alive]; [|auto].
  unfold without. intros Hin. apply List.filter_In in Hin. tauto.
Qed.

Lemma killEach_spec childPids :
  forall h,
    fst (killEach childPids h) = Ok tt /\
    kills (snd (killEach childPids h)) = kills h ++ childPids /\
    (forall q, In q (alive (snd (killEach childPids h))) -> In q (alive h)) /\
    (forall p, In p childPids -> ~ In p (alive (snd (killEach childPids h)))).
Proof.
  induction childPids as [|p rest IH]; intros h; cbn [killEach].
  - rewrite app_nil_r. repeat split; auto.
  - pose proof (swallow_ok (processKill p) h) as Hok.
    pose proof (swallow_host (processKill p) h) as Hhost.
    destruct (swallow (processKill p) h) as [outcome h1].
    cbn [fst snd] in Hok, Hhost. subst outcome h1.
    destruct (IH (snd (processKill p h))) as (H1 & H2 & H3 & H4).
    split; [exact H1|]. split; [|split].
    + rewrite H2, processKill_kills, <- app_assoc. reflexivity.
    + intros q Hq. apply (processKill_alive p h), H3, Hq.
    + intros q [<- | Hin]; [|apply H4, Hin].
      intros Hq. apply H3 in Hq. exact (processKill_dead p h Hq).
Qed.

Lemma killProcessTree_unix os root h :
  unixLike os ->
  killProcessTree os root h
    = (Ok tt,
       snd (processKill (pidOf root)
              (snd (killEach (getChildProcesses os root) h)))).
Proof.
  intros Hos. unfold killProcessTree.
  assert (Hbody :
    (match os with
     | win32 => taskkill root h
     | _ =>
         let '(outcome, h1) := swallow (killEach (getChildProcesses os root)) h in
         match outcome with
         | Ok _ => swallow (processKill (pidOf root)) h1
         | Throw message => (Throw message, h1)
         end
     end)
    = swallow (processKill (pidOf root))
        (snd (killEach (getChildProcesses os root) h))).
  { pose proof (swallow_ok (killEach (getChildProcesses os root)) h) as Hok.
    pose proof (swallow_host (killEach (getChildProcesses os root)) h) as Hh.
    destruct Hos as [-> | ->];
      destruct (swallow (killEach _) h) as [outcome h1];
      cbn [fst snd] in Hok, Hh; subst outcome h1; reflexivity. }
  unfold swallow at 1. rewrite Hbody.
  pose proof (swallow_ok (processKill (pidOf root))
                (snd (killEach (getChildProcesses os root) h))) as Hok.
  pose proof (swallow_host (processKill (pidOf root))
                (snd (killEach (getChildProcesses os root) h))) as Hh.
  destruct (swallow (processKill (pidOf root)) _) as [outcome h2].
  cbn [fst snd] in Hok, Hh. subst outcome h2. reflexivity.
Qed.

Lemma killProcessTree_returns os root h : fst (killProcessTree os root h) = Ok tt.
Proof. unfold killProcessTree. apply swallow_ok. Qed.

(** C9, as stated, fails in its order: on a root with a child and a
    grandchild the child is signalled before the grandchild, so the
    descendants are not killed bottom-up. *)
Lemma kill_order_is_not_bottom_up :
  kills (snd (killProcessTree linux chain (allAlive chain))) = [2; 3; 1] /\
  before [2; 3; 1] 2 3 = true /\
  bottomUp [2; 3; 1] chain = false /\
  bottomUp [3; 2; 1] chain = true.
Proof. repeat split. Qed.

(** C9, amended: on Linux and macOS [killProcessTree] calls kill on every
    process the listing reports below the root and then on the root; the
    descendants come in the order of enumeration, each child directly
    followed by its own descendants (parents first, not bottom-up);
    afterwards none of them is alive.  On every platform, and whatever
    is still alive, the call returns normally, so a second call on the
    dead tree returns normally too and only records that the root is
    gone. *)
Theorem killProcessTree_descendants_then_root :
  forall os root h,
    unixLike os ->
    fst (killProcessTree os root h) = Ok tt /\
    kills (snd (killProcessTree os root h))
      = kills h ++ getChildProcesses os root ++ [pidOf root] /\
    (forall p, descendant root p <-> In p (getChildProcesses os root)) /\
    (forall pid children,
        getChildProcesses os (Proc pid children)
          = flat_map (fun child => pidOf child :: getChildProcesses os child)
                     children) /\
    (forall p, p = pidOf root \/ descendant root p ->
               ~ In p (alive (snd (killProcessTree os root h)))) /\
    (forall os' root' h', fst (killProcessTree os' root' h') = Ok tt) /\
    killProcessTree os (Proc (pidOf root) []) (snd (killProcessTree os root h))
      = (Ok tt,
         mkHost (alive (snd (killProcessTree os root h)))
                (log (snd (killProcessTree os root h))
                   ++ [NoSuchProcess (pidOf root)])).
Proof.
  intros os root h Hos.
  assert (Hdesc : forall p, descendant root p <-> In p (getChildProcesses os root)).
  { intros p. rewrite (getChildProcesses_below os root Hos).
    apply descendant_below. }
  rewrite (killProcessTree_unix os root h Hos). cbn [fst snd].
  destruct (killEach_spec (getChildProcesses os root) h) as (_ & Hk & Hsub & Hdead).
  assert (Hroot := processKill_dead (pidOf root)
                     (snd (killEach (getChildProcesses os root) h))).
  split; [reflexivity|]. split; [|split; [|split; [|split; [|split]]]].
  - rewrite processKill_kills, Hk, <- app_assoc. reflexivity.
  - exact Hdesc.
  - intros pid children. apply getChildProcesses_unix, Hos.
  - intros p [-> | Hp]; [exact Hroot|].
    intros Hin. apply processKill_alive in Hin.
    apply (Hdead p); [apply Hdesc, Hp | exact Hin].
  - intros os' root' h'. apply killProcessTree_returns.
  - rewrite (killProcessTree_unix os _ _ Hos).
    replace (getChildProcesses os (Proc (pidOf root) [])) with (@nil Z)
      by (destruct Hos as [-> | ->]; reflexivity).
    cbn [killEach snd pidOf]. f_equal. unfold processKill at 1.
    replace (isAlive (pidOf root) _) with false; [reflexivity|].
    symmetry. apply not_true_is_false. intros Ha. apply Hroot.
    unfold isAlive in Ha. apply existsb_exists in Ha as (q & Hq & Heq).
    apply Z.eqb_eq in Heq. subst q. exact Hq.
Qed.

Lemma killProcessTree_descendants_then_root_witness :
  kills (snd (killProcessTree darwin engineTree (allAlive engineTree)))
    = [4101; 4103; 4104; 4102; 4100] /\
  alive (snd (killProcessTree darwin engineTree (allAlive engineTree))) = [].
Proof.
  destruct (killProcessTree_descendants_then_root darwin engineTree
              (allAlive engineTree) (or_intror eq_refl))
    as (_ & Hk & _ & _ & _ & _ & _).
  split; [rewrite Hk; reflexivity | reflexivity].
Defined.

End ProcessTree.

Section StartCoalescing.
Import Engine.

Variable machine : Machine.

(** Once [startPromise] is set, a call of [start] neither probes nor
    spawns: it follows the stored promise. *)
Lemma call_follows_stored_promise m p :
  startPromise m = Some p ->
  step machine m Call = enter (Following p) m /\
  spawns (step machine m Call) = spawns m /\
  promises (step machine m Call) = promises m.
Proof. intros H. cbn [step]. rewrite H. repeat split. Qed.

(** A follower settles with the outcome of the promise it follows. *)
Lemma follower_gets_outcome m caller p outcome :
  callers m !! caller = Some (Following p) ->
  promises m !! p = Some (Some outcome) ->
  callers (step machine m (Resume caller)) !! caller = Some (Done outcome).
Proof.
  intros Hc Hp. cbn [step]. rewrite Hc, Hp. cbn [setCaller callers].
  apply list_lookup_insert_eq. eapply lookup_lt_Some, Hc.
Qed.

(** The owner of an attempt settles with its outcome too, and clears
    [startPromise] on the way out. *)
Lemma owner_gets_outcome m caller p outcome :
  callers m !! caller = Some (AwaitingOwn p) ->
  promises m !! p = Some (Some outcome) ->
  callers (step machine m (Resume caller)) !! caller = Some (Done outcome) /\
  startPromise (step machine m (Resume caller)) = None.
Proof.
  intros Hc Hp. cbn [step]. rewrite Hc, Hp.
  cbn [setCaller setStartPromise callers startPromise]. split; [|reflexivity].
  apply list_lookup_insert_eq. eapply lookup_lt_Some, Hc.
Qed.

Lemma doStart_spawns m :
  spawns (doStart machine m) = spawns m \/
  spawns (doStart machine m) = S (spawns m).
Proof.
  unfold doStart.
  destruct (os machine), (executableExists machine), (winePath machine);
    cbn; auto.
Qed.

(** The only event that can spawn is the reply to the probe of a caller
    that entered [start] while no promise was stored. *)
Lemma spawn_needs_probing_caller m ev :
  spawns (step machine m ev) <> spawns m ->
  exists caller probe,
    ev = StatusReply caller probe /\
    callers m !! caller = Some AwaitingStatus /\
    spawns (step machine m ev) = S (spawns m).
Proof.
  destruct ev as [|caller probe|p ready|caller]; cbn [step].
  - destruct (startPromise m); cbn; congruence.
  - destruct (callers m !! caller) as [[| | |]|] eqn:Hc; try congruence.
    destruct (getStatus probe) as [status|message]; [|cbn; congruence].
    destruct (running status); [cbn; congruence|].
    cbn [setCaller setStartPromise spawns]. intros Hne.
    exists caller, probe. repeat split; [exact Hc|].
    destruct (doStart_spawns m); congruence.
  - destruct (promises m !! p) as [[|]|]; cbn; congruence.
  - destruct (callers m !! caller) as [[|p|p|]|]; try congruence;
      destruct (promises m !! p) as [[|]|]; cbn; congruence.
Qed.

End StartCoalescing.

Section OverlappingStarts.
Import Engine.

(** C1 fails on the code: [startPromise] is stored only after the
    awaited status probe, so two calls of [start] that overlap in the
    probe each run [_doStart] and spawn.  Callers that arrive later
    follow whichever attempt is stored at that moment, and here they see
    different outcomes: the first attempt times out, the second finds
    the engine ready. *)
Theorem overlapping_starts_spawn_twice :
  let probing :=
    run linuxBox idle [Call; Call; StatusReply 0 refused; StatusReply 1 refused] in
  spawns probing = 2%nat /\
  callers probing = [AwaitingOwn 0; AwaitingOwn 1] /\
  promises probing = [None; None] /\
  let settled := run linuxBox idle overlappingStarts in
  spawns settled = 2%nat /\
  callers settled
    = [Done (Throw "Engine startup timeout"); Done (Ok tt);
       Done (Throw "Engine startup timeout"); Done (Ok tt)] /\
  startPromise
    (run linuxBox idle
       [Call; Call; StatusReply 0 refused; StatusReply 1 refused;
        EngineSettles 0 false; Resume 0]) = None.
Proof. cbv zeta. repeat split. Qed.

End OverlappingStarts.

(** * Further properties of [EngineManager] *)

Section StatusAndReadiness.
Import Engine.

(** X1: [getStatus] never throws; it reports a running engine exactly when
    the probe delivered a body with a [result], and every other probe,
    failed or not, gives the bare [{ running: false }]. *)
Theorem getStatus_running_iff_result :
  forall probe,
    exists st,
      getStatus probe = Ok st /\
      (running st = true <-> exists info, probe = Ok (Some info)) /\
      (running st = false -> st = notRunning).
Proof.
  intros [[info|]|message]; cbn; eexists; (split; [reflexivity|]); cbn; split;
    try (intros _; reflexivity); try discriminate.
  - split; [eauto | reflexivity].
  - split; [discriminate | intros [info H]; discriminate].
  - split; [discriminate | intros [info H]; discriminate].
Qed.

Lemma clockAt_lower polls :
  forall k p,
    Forall (fun q => 0 <= took q) polls ->
    polls !! k = Some p ->
    500 * Z.of_nat k <= clockAt polls k.
Proof.
  induction polls as [|q rest IH]; intros k p Hall Hk; [discriminate|].
  destruct k as [|k]; cbn [clockAt]; [lia|].
  inversion Hall as [|? ? Hq Hrest]; subst. cbn in Hk.
  specialize (IH k p Hrest Hk). lia.
Qed.

Lemma waitForEngine_ready_iff polls :
  forall elapsed,
    Forall (fun q => 0 <= took q) polls ->
    (waitForEngine elapsed polls = Some (Ok tt) <->
     exists k p,
       polls !! k = Some p /\
       versionReported (reply p) = true /\
       (forall j q, (j < k)%nat -> polls !! j = Some q ->
                    versionReported (reply q) = false) /\
       elapsed + clockAt polls k < ENGINE_START_TIMEOUT).
Proof.
  induction polls as [|p0 rest IH]; intros elapsed Hall; cbn [waitForEngine].
  - destruct (elapsed <? ENGINE_START_TIMEOUT); split; try discriminate;
      intros (k & p & Hk & _); destruct k; discriminate.
  - inversion Hall as [|? ? Hp0 Hrest]; subst.
    destruct (Z.ltb_spec elapsed ENGINE_START_TIMEOUT) as [Hlt|Hge].
    + destruct (versionReported (reply p0)) eqn:E0.
      * split; [intros _|reflexivity].
        exists 0%nat, p0. repeat split; [exact E0 | intros; lia | cbn; lia].
      * rewrite (IH _ Hrest). split.
        -- intros (k & p & Hk & Hv & Hbefore & Hclock).
           exists (S k), p. repeat split; [exact Hk | exact Hv | | cbn [clockAt]; lia].
           intros [|j] q Hj Hq; cbn in Hq; [congruence|].
           apply (Hbefore j q); [lia | exact Hq].
        -- intros ([|k] & p & Hk & Hv & Hbefore & Hclock); cbn in Hk.
           ++ congruence.
           ++ exists k, p. repeat split; [exact Hk | exact Hv | | cbn [clockAt] in Hclock; lia].
              intros j q Hj Hq. apply (Hbefore (S j) q); [lia | exact Hq].
    + split; [discriminate|].
      intros (k & p & Hk & _ & _ & Hclock).
      pose proof (clockAt_lower (p0 :: rest) k p Hall Hk). lia.
Qed.

(** X2: with requests that take no negative time, [waitForEngine]
    reports the engine ready exactly when some probe returns a version,
    every probe before it did not, and the loop's clock is still under
    30 s when that probe is sent; such a probe is one of the first 60. *)
Theorem waitForEngine_ready_within_sixty_probes :
  forall polls,
    Forall (fun q => 0 <= took q) polls ->
    (waitForEngine 0 polls = Some (Ok tt) <->
     exists k p,
       (k < 60)%nat /\
       polls !! k = Some p /\
       versionReported (reply p) = true /\
       (forall j q, (j < k)%nat -> polls !! j = Some q ->
                    versionReported (reply q) = false) /\
       clockAt polls k < 30000).
Proof.
  intros polls Hall. rewrite (waitForEngine_ready_iff polls 0 Hall). split.
  - intros (k & p & Hk & Hv & Hbefore & Hclock).
    pose proof (clockAt_lower polls k p Hall Hk).
    unfold ENGINE_START_TIMEOUT in Hclock.
    exists k, p. repeat split; auto; lia.
  - intros (k & p & _ & Hk & Hv & Hbefore & Hclock).
    exists k, p. unfold ENGINE_START_TIMEOUT. repeat split; auto; lia.
Qed.

Lemma waitForEngine_ready_within_sixty_probes_witness :
  waitForEngine 0 [mkPoll refused 2000; mkPoll (Ok None) 40;
                   mkPoll (Ok (Some (mkVersionInfo (Some "3.1.80"%string) None))) 15]
    = Some (Ok tt).
Proof.
  apply waitForEngine_ready_within_sixty_probes.
  - repeat constructor; cbn; lia.
  - exists 2%nat, (mkPoll (Ok (Some (mkVersionInfo (Some "3.1.80"%string) None))) 15).
    split; [lia|]. split; [reflexivity|]. split; [reflexivity|]. split.
    + intros [|[|j]] q Hj Hq; cbn in Hq; try lia;
        injection Hq as <-; reflexivity.
    + cbn. lia.
Defined.

End StatusAndReadiness.

Section StoredAttempt.
Import Engine.

Variable machine : Machine.

Lemma quiet_lookup m caller :
  quiet m -> callers m !! caller <> Some AwaitingStatus.
Proof.
  unfold quiet. intros Hq Hc. rewrite forallb_forall in Hq.
  assert (Hin : In AwaitingStatus (callers m)).
  { apply list_elem_of_In. eapply list_elem_of_lookup_2, Hc. }
  specialize (Hq _ Hin). discriminate.
Qed.

Lemma quiet_enter m f : quiet m -> probing f = false -> quiet (enter f m).
Proof.
  unfold quiet, enter. cbn [callers]. intros Hq Hf.
  rewrite forallb_app, Hq. cbn. rewrite Hf. reflexivity.
Qed.

Lemma forallb_insert {A} (test : A -> bool) (l : list A) i x :
  forallb test l = true -> test x = true -> forallb test (<[i := x]> l) = true.
Proof.
  revert i. induction l as [|a l IH]; intros i Hl Hx; [reflexivity|].
  cbn in Hl. apply andb_true_iff in Hl as [Ha Hl].
  destruct i as [|i]; cbn; rewrite ?Hx, ?Ha; cbn; auto.
Qed.

Lemma quiet_setCaller m caller f :
  quiet m -> probing f = false -> quiet (setCaller caller f m).
Proof.
  unfold quiet, setCaller. cbn [callers]. intros Hq Hf.
  apply forallb_insert; [exact Hq | rewrite Hf; reflexivity].
Qed.

(** One event while attempt [p] stays stored and nobody is probing. *)
Lemma stored_step p m ev :
  startPromise m = Some p ->
  quiet m ->
  startPromise (step machine m ev) = Some p ->
  spawns (step machine m ev) = spawns m /\
  quiet (step machine m ev) /\
  (length (callers m) <= length (callers (step machine m ev)))%nat /\
  (forall c f, (length (callers m) <= c)%nat ->
               callers (step machine m ev) !! c = Some f -> f = Following p) /\
  (forall c f, (c < length (callers m))%nat ->
               callers m !! c = Some f -> follows p m f ->
               exists f', callers (step machine m ev) !! c = Some f' /\
                          follows p (step machine m ev) f').
Proof.
  intros Hp Hq Hstay. destruct ev as [|caller probe|q ready|caller].
  - cbn [step] in *. rewrite Hp in *. cbn [enter spawns callers promises] in *.
    split; [reflexivity|]. split; [apply quiet_enter; [exact Hq | reflexivity]|].
    split; [rewrite length_app; lia|]. split.
    + intros c f Hc Hf. rewrite lookup_app_r in Hf by exact Hc.
      apply list_lookup_singleton_Some in Hf as [_ Hf]. congruence.
    + intros c f Hc Hf Hfol. exists f. split; [|exact Hfol].
      rewrite lookup_app_l by exact Hc. exact Hf.
  - pose proof (quiet_lookup m caller Hq) as Hno. cbn [step] in *.
    destruct (callers m !! caller) as [[| | |]|]; try congruence;
      (split; [reflexivity|]; split; [exact Hq|]; split; [lia|]; split;
       [intros c f Hc Hf; apply lookup_lt_Some in Hf; lia
       |intros c f Hc Hf Hfol; eauto]).
  - cbn [step] in *.
    destruct (promises m !! q) as [[outcome|]|] eqn:Eq;
      cbn [spawns callers promises] in *;
      (split; [reflexivity|]; split; [exact Hq|]; split; [lia|]; split;
       [intros c f Hc Hf; apply lookup_lt_Some in Hf; lia|]);
      intros c f Hc Hf Hfol; exists f; (split; [exact Hf|]); try exact Hfol.
    destruct Hfol as [-> | (outcome & -> & Hset)]; [left; reflexivity|].
    right. exists outcome. split; [reflexivity|]. cbn [promises].
    destruct (decide (q = p)) as [->|Hne]; [congruence|].
    rewrite list_lookup_insert_ne by exact Hne. exact Hset.
  - cbn [step] in *.
    destruct (callers m !! caller) as [[|q|q|outcome]|] eqn:Ec;
      try (split; [reflexivity|]; split; [exact Hq|]; split; [lia|]; split;
           [intros c f Hc Hf; apply lookup_lt_Some in Hf; lia
           |intros c f Hc Hf Hfol; eauto]).
    + destruct (promises m !! q) as [[outcome|]|] eqn:Eq;
        try (split; [reflexivity|]; split; [exact Hq|]; split; [lia|]; split;
             [intros c f Hc Hf; apply lookup_lt_Some in Hf; lia
             |intros c f Hc Hf Hfol; eauto]).
      cbn in Hstay. discriminate.
    + destruct (promises m !! q) as [[outcome|]|] eqn:Eq;
        try (split; [reflexivity|]; split; [exact Hq|]; split; [lia|]; split;
             [intros c f Hc Hf; apply lookup_lt_Some in Hf; lia
             |intros c f Hc Hf Hfol; eauto]).
      cbn [setCaller spawns callers promises].
      split; [reflexivity|].
      split; [apply quiet_setCaller; [exact Hq | reflexivity]|].
      rewrite length_insert. split; [lia|]. split.
      * intros c f Hc Hf. apply lookup_lt_Some in Hf.
        rewrite length_insert in Hf. lia.
      * intros c f Hc Hf Hfol.
        destruct (decide (caller = c)) as [->|Hne].
        -- rewrite list_lookup_insert_eq by exact Hc.
           eexists. split; [reflexivity|].
           rewrite Ec in Hf. injection Hf as <-.
           destruct Hfol as [Hfp | (o & Hd & _)]; [|discriminate].
           injection Hfp as ->. right. exists outcome. auto.
        -- rewrite list_lookup_insert_ne by exact Hne. eauto.
Qed.

Lemma stored_run p evs :
  forall m n0,
    startPromise m = Some p ->
    quiet m ->
    (forall c f, (n0 <= c)%nat -> callers m !! c = Some f -> follows p m f) ->
    storedThroughout machine p m evs ->
    spawns (run machine m evs) = spawns m /\
    quiet (run machine m evs) /\
    (forall c f, (n0 <= c)%nat ->
                 callers (run machine m evs) !! c = Some f ->
                 follows p (run machine m evs) f).
Proof.
  induction evs as [|ev evs IH]; intros m n0 Hp Hq Hold Hstored.
  - cbn. auto.
  - destruct Hstored as [Hstay Hrest].
    destruct (stored_step p m ev Hp Hq Hstay) as (Hs & Hq1 & Hlen & Hnew & Hkeep).
    change (run machine m (ev :: evs)) with (run machine (step machine m ev) evs).
    rewrite <- Hs. apply IH; [exact Hstay | exact Hq1 | | exact Hrest].
    intros c f Hc Hf.
    destruct (Nat.lt_ge_cases c (length (callers m))) as [Hlt|Hge].
    + destruct (lookup_lt_is_Some_2 (callers m) c Hlt) as [f0 Hf0].
      destruct (Hkeep c f0 Hlt Hf0 (Hold c f0 Hc Hf0)) as (f' & Hf' & Hfol).
      congruence.
    + left. apply (Hnew c f Hge Hf).
Qed.

(** X3: while [startPromise] holds attempt [p] and no activation is
    suspended in the status probe, whatever happens - calls of [start],
    the attempt settling, followers resuming - nothing is spawned, and
    every caller that entered in the meantime either still follows [p] or
    has settled with the outcome of [p]. *)
Theorem calls_follow_stored_attempt :
  forall p m evs,
    startPromise m = Some p ->
    quiet m ->
    storedThroughout machine p m evs ->
    spawns (run machine m evs) = spawns m /\
    (forall c f, (length (callers m) <= c)%nat ->
                 callers (run machine m evs) !! c = Some f ->
                 follows p (run machine m evs) f).
Proof.
  intros p m evs Hp Hq Hstored.
  destruct (stored_run p evs m (length (callers m)) Hp Hq) as (Hs & _ & Hf);
    [|exact Hstored|auto].
  intros c f Hc Hlook. apply lookup_lt_Some in Hlook. lia.
Qed.

End StoredAttempt.

Section LoneStart.
Import Engine.

Lemma calls_follow_stored_attempt_witness :
  let m := run linuxBox idle [Call; StatusReply 0 refused] in
  let m' := run linuxBox m [Call; Call; EngineSettles 0 true; Resume 1; Resume 2] in
  spawns m' = 1%nat /\ follows 0 m' (Done (Ok tt)).
Proof.
  cbv zeta.
  destruct (calls_follow_stored_attempt linuxBox 0
              (run linuxBox idle [Call; StatusReply 0 refused])
              [Call; Call; EngineSettles 0 true; Resume 1; Resume 2])
    as [Hs Hf].
  - reflexivity.
  - reflexivity.
  - cbn. repeat split.
  - split; [exact Hs|]. apply (Hf 1%nat); [cbn; lia | reflexivity].
Defined.

(** X4: a start that nobody overlaps.  With the engine already answering
    the probe, [start] resolves without creating a promise or spawning.
    Otherwise, when [_doStart] cannot launch (unsupported platform,
    executable missing, or Wine missing on macOS) the call rejects, nothing
    was spawned and no handle is kept; when it can, exactly one child is
    spawned and the call settles as [waitForEngine] does - and after a
    startup timeout the child handle is still held.  In every case
    [startPromise] and [isStarting] are cleared at the end. *)
Theorem lone_start_outcomes :
  forall machine probe ready,
    (forall info, probe = Ok (Some info) ->
       run machine idle [Call; StatusReply 0 probe]
         = mkManager None false None [] 0 [Done (Ok tt)]) /\
    ((forall info, probe <> Ok (Some info)) ->
       let m := run machine idle
                  [Call; StatusReply 0 probe; EngineSettles 0 ready; Resume 0] in
       startPromise m = None /\ isStarting m = false /\
       ((os machine = unsupported \/ executableExists machine = false \/
         (os machine = darwin /\ winePath machine = None)) ->
        spawns m = 0%nat /\ engineProcess m = None /\
        exists message, callers m = [Done (Throw message)]) /\
       (os machine <> unsupported -> executableExists machine = true ->
        (os machine = darwin -> winePath machine <> None) ->
        spawns m = 1%nat /\ engineProcess m = Some 0%nat /\
        callers m = [Done (if ready then Ok tt
                           else Throw "Engine startup timeout")])).
Proof.
  intros [platform exists_ wine] probe ready. split.
  - intros info ->. reflexivity.
  - intros Hprobe. cbv zeta.
    assert (Hstatus : getStatus probe = Ok notRunning).
    { destruct probe as [[info|]|message]; try reflexivity.
      exfalso. apply (Hprobe info). reflexivity. }
    unfold run. cbn [fold_left step idle startPromise enter callers].
    change ([] ++ [AwaitingStatus]) with [AwaitingStatus].
    change ([AwaitingStatus] !! 0%nat) with (Some AwaitingStatus).
    cbn match. rewrite Hstatus. cbn [running notRunning].
    cbn [os executableExists winePath].
    destruct platform, exists_, wine as [w|], ready; cbn;
      (split; [reflexivity|]); (split; [reflexivity|]); split;
      try (intros [H|[H|[H1 H2]]]; try discriminate;
           repeat split; eauto);
      try (intros H1 H2 H3; try congruence;
           try (exfalso; apply H3; reflexivity);
           try (exfalso; apply H1; reflexivity);
           repeat split; reflexivity).
Qed.

End LoneStart.

Section LoneStartWitness.
Import Engine.

Lemma lone_start_outcomes_witness :
  let m := run linuxBox idle
             [Call; StatusReply 0 refused; EngineSettles 0 false; Resume 0] in
  spawns m = 1%nat /\
  engineProcess m = Some 0%nat /\
  callers m = [Done (Throw "Engine startup timeout")].
Proof.
  destruct (lone_start_outcomes linuxBox refused false) as [_ H].
  assert (Hprobe : forall info, refused <> Ok (Some info)) by (intros info; discriminate).
  destruct (H Hprobe) as (_ & _ & _ & Hspawned).
  apply Hspawned; [discriminate | reflexivity | discriminate].
Defined.

End LoneStartWitness.

Section Stop.
Import Engine.

(** X5: [stop] forgets the handle; the kill of the process tree (or of the
    bare handle) happens only when there was a handle, and comes first;
    the sweep by process name runs exactly once on every platform but
    Windows, handle or not, and on macOS it is followed by the wineserver
    kill.  A second [stop] repeats only the sweeps. *)
Theorem stop_sweeps_without_handle :
  forall os engineProcess,
    fst (stop os engineProcess) = None /\
    length (List.filter isSweep (snd (stop os engineProcess)))
      = match os with win32 => 0%nat | _ => 1%nat end /\
    (List.filter isTreeKill (snd (stop os engineProcess)) = [] <-> engineProcess = None) /\
    (forall child, engineProcess = Some child ->
       exists first rest,
         snd (stop os engineProcess) = first :: rest /\
         isTreeKill first = true /\ rest = snd (stop os None)) /\
    (ForceKillWineServer ∈ snd (stop os engineProcess) <-> os = darwin) /\
    stop os (fst (stop os engineProcess)) = stop os None.
Proof.
  intros os engineProcess. split; [reflexivity|]. split; [|split; [|split; [|split]]].
  - destruct os, engineProcess as [[[pid|]]|]; cbn;
      try destruct (pid =? 0); reflexivity.
  - destruct engineProcess as [[[pid|]]|]; destruct os; cbn;
      try destruct (pid =? 0); cbn; split; intros H;
      try reflexivity; discriminate.
  - intros child ->. destruct child as [[pid|]]; unfold stop; cbn [childPid].
    + destruct (pid =? 0); eexists; eexists; cbn [app]; eauto.
    + eexists; eexists; cbn [app]; eauto.
  - destruct os, engineProcess as [[[pid|]]|]; cbn;
      try destruct (pid =? 0); cbn;
      (split; [intros H; try reflexivity;
               repeat (apply elem_of_cons in H as [H|H]; [discriminate|]);
               try (apply elem_of_nil in H; contradiction)
              |intros H; try discriminate;
               repeat (first [apply list_elem_of_here | apply list_elem_of_further])]).
  - reflexivity.
Qed.

End Stop.

Section StopWitness.
Import Engine.

Lemma stop_sweeps_without_handle_witness :
  exists first rest,
    snd (stop darwin (Some (mkChild (Some 4100)))) = first :: rest /\
    isTreeKill first = true /\
    rest = [KillAceStreamProcesses; ForceKillWineServer].
Proof.
  destruct (stop_sweeps_without_handle darwin (Some (mkChild (Some 4100))))
    as (_ & _ & _ & H & _).
  apply (H (mkChild (Some 4100))). reflexivity.
Defined.

End StopWitness.

Section StartPlayback.
Import Engine.

Lemma skip_app pattern rest :
  skip (String.length pattern) (pattern ++ rest) = rest.
Proof. induction pattern as [|c pattern IH]; cbn; auto. Qed.

Lemma prefix_app pattern rest : String.prefix pattern (pattern ++ rest) = true.
Proof. apply prefix_spec. exists rest. reflexivity. Qed.

Lemma removeFirst_unfold pattern s :
  removeFirst pattern s =
    if String.prefix pattern s then skip (String.length pattern) s
    else match s with
         | EmptyString => EmptyString
         | String c rest => String c (removeFirst pattern rest)
         end.
Proof. destruct s; reflexivity. Qed.

(** A leading occurrence is the one that is removed. *)
Lemma removeFirst_prefix pattern rest :
  removeFirst pattern (pattern ++ rest)%string = rest.
Proof. rewrite removeFirst_unfold, prefix_app. apply skip_app. Qed.

(** Hexadecimal digits do not spell [acestream://]. *)
Lemma removeFirst_hex s :
  forallb Ipc.hexDigit (list_ascii_of_string s) = true ->
  removeFirst "acestream://" s = s.
Proof.
  induction s as [|c s IH]; intros Hhex; [reflexivity|].
  rewrite removeFirst_unfold.
  destruct (String.prefix "acestream://" (String c s)) eqn:Hp.
  - apply prefix_spec in Hp as [rest Heq]. rewrite Heq in Hhex.
    cbn in Hhex. discriminate.
  - cbn in Hhex. apply andb_true_iff in Hhex as [_ Hhex].
    rewrite (IH Hhex). reflexivity.
Qed.

(** X6: [startPlayback] sends no manifest request when [ensureRunning]
    failed; otherwise it sends exactly one, and for a content id that
    passes the validation of the [acestream:play] handler the request
    carries that id unchanged, with or without a leading [acestream://]. *)
Theorem startPlayback_requests_validated_id :
  forall manifest contentId,
    (forall message,
        startPlayback (Throw message) manifest contentId = (Throw message, [])) /\
    length (snd (startPlayback (Ok tt) manifest contentId)) = 1%nat /\
    (Ipc.isValidContentId (Ipc.Text contentId) = true ->
     snd (startPlayback (Ok tt) manifest contentId) = [contentId] /\
     snd (startPlayback (Ok tt) manifest ("acestream://" ++ contentId))
       = [contentId]).
Proof.
  intros manifest contentId. split; [reflexivity|]. split; [reflexivity|].
  intros Hvalid. cbn [Ipc.isValidContentId] in Hvalid. unfold Ipc.CONTENT_ID_REGEX in Hvalid.
  apply repeatExactly_spec in Hvalid as [_ Hhex].
  unfold startPlayback. cbn [snd].
  rewrite removeFirst_prefix, (removeFirst_hex contentId Hhex). auto.
Qed.

Lemma startPlayback_requests_validated_id_witness :
  snd (startPlayback (Ok tt) (fun _ => ManifestBody None)
         ("acestream://" ++ Ipc.exampleId))
    = [Ipc.exampleId].
Proof.
  apply (startPlayback_requests_validated_id (fun _ => ManifestBody None) Ipc.exampleId).
  reflexivity.
Defined.

(** The engine manager the handlers see when [ensureRunning] ends as
    [ensured] and the engine answers manifests as [manifest]. *)
Lemma play_reply ensured manifest stat halt s :
  Ipc.isValidContentId (Ipc.Text s) = true ->
  fst (Ipc.play (Ipc.Build_EngineManager
                   (fun id => fst (startPlayback ensured manifest id)) stat halt)
                (Ipc.Text s))
    = match fst (startPlayback ensured manifest s) with
      | Ok session => Ok (Ipc.mkReply true None (Some session))
      | Throw message => Ok (Ipc.mkReply false (Some message) None)
      end.
Proof.
  intros Hvalid. unfold Ipc.play. rewrite Hvalid. cbn.
  destruct (fst (startPlayback ensured manifest s)); reflexivity.
Qed.

(** X7: for a valid content id the [acestream:play] handler, backed by
    [startPlayback], always answers with a reply.  The reply is a success
    exactly when [ensureRunning] succeeded and the manifest body has a
    [response]; its session is live exactly when [is_live] is the number
    1.  When the request failed and the engine sent its own error text,
    that text is the reply's error; a body without [response] gives
    [Invalid response from Engine]. *)
Theorem play_reply_from_manifest :
  forall ensured manifest stat halt s,
    Ipc.isValidContentId (Ipc.Text s) = true ->
    exists reply,
      fst (Ipc.play (Ipc.Build_EngineManager
                       (fun id => fst (startPlayback ensured manifest id)) stat halt)
                    (Ipc.Text s)) = Ok reply /\
      (Ipc.success reply = true <->
         ensured = Ok tt /\ exists info, manifest s = ManifestBody (Some info)) /\
      (forall info, ensured = Ok tt -> manifest s = ManifestBody (Some info) ->
         exists session,
           Ipc.session reply = Some session /\
           playbackUrl session = playback_url info /\
           (sessionIsLive session = true <-> manifest_is_live info = Some 1)) /\
      (forall message text, ensured = Ok tt ->
         manifest s = ManifestFailed message (Some text) -> text <> ""%string ->
         Ipc.error reply = Some text) /\
      (ensured = Ok tt -> manifest s = ManifestBody None ->
         Ipc.error reply = Some "Invalid response from Engine"%string) /\
      (forall message, ensured = Throw message -> Ipc.error reply = Some message).
Proof.
  intros ensured manifest stat halt s Hvalid.
  rewrite (play_reply ensured manifest stat halt s Hvalid).
  assert (Hclean : removeFirst "acestream://" s = s).
  { cbn [Ipc.isValidContentId] in Hvalid. unfold Ipc.CONTENT_ID_REGEX in Hvalid.
    apply repeatExactly_spec in Hvalid as [_ Hhex]. apply removeFirst_hex, Hhex. }
  unfold startPlayback. rewrite Hclean.
  assert (Hfinish : forall P : Prop, (P -> False) -> false = true <-> P)
    by (intros P HP; split; [discriminate | intros H; destruct (HP H)]).
  destruct ensured as [[]|failure]; cbn [fst].
  - destruct (manifest s) as [[info|]|message [text|]] eqn:Em.
    + eexists. split; [reflexivity|]. cbn [Ipc.success Ipc.error Ipc.session].
      split; [split; eauto|]. split; [|split; [|split]];
        intros; try discriminate; try congruence.
      match goal with H : ManifestBody _ = ManifestBody _ |- _ =>
        injection H as <- end.
      eexists. split; [reflexivity|]. cbn. split; [reflexivity|]. unfold isOne.
      destruct (manifest_is_live info) as [n|]; [|split; discriminate].
      split; [intros Hl; apply Z.eqb_eq in Hl; congruence
             |intros Hl; injection Hl as ->; reflexivity].
    + eexists. split; [reflexivity|]. cbn [Ipc.success Ipc.error Ipc.session].
      split; [apply Hfinish; intros [_ [info H]]; discriminate|].
      split; [|split; [|split]]; intros; try discriminate; try congruence.
    + cbn [truthy strOr]. destruct (String.eqb_spec text "") as [->|Hne];
        cbn [negb]; (eexists; split; [reflexivity|]);
        cbn [Ipc.success Ipc.error Ipc.session];
        (split; [apply Hfinish; intros [_ [info H]]; discriminate|]);
        (split; [|split; [|split]]); intros; try discriminate; try congruence.
    + cbn [truthy]. eexists. split; [reflexivity|].
      cbn [Ipc.success Ipc.error Ipc.session].
      split; [apply Hfinish; intros [_ [info H]]; discriminate|].
      split; [|split; [|split]]; intros; try discriminate; try congruence.
  - eexists. split; [reflexivity|]. cbn [Ipc.success Ipc.error Ipc.session].
    split; [apply Hfinish; intros [H _]; discriminate|].
    split; [|split; [|split]]; intros; try discriminate; try congruence.
Qed.

Lemma play_reply_from_manifest_witness :
  exists reply,
    fst (Ipc.play (Ipc.Build_EngineManager
                     (fun id => fst (startPlayback (Ok tt)
                                       (fun _ => ManifestBody (Some liveManifest)) id))
                     (fun _ => Throw "") (fun _ => Throw ""))
                  (Ipc.Text Ipc.exampleId)) = Ok reply /\
    Ipc.success reply = true.
Proof.
  destruct (play_reply_from_manifest (Ok tt)
              (fun _ => ManifestBody (Some liveManifest))
              (fun _ => Throw "") (fun _ => Throw "") Ipc.exampleId eq_refl)
    as (reply & Hreply & Hsuccess & _).
  exists reply. split; [exact Hreply|]. apply Hsuccess. eauto.
Defined.

End StartPlayback.

(** * Properties of the main process *)

Section ProtocolUrls.
Import Main.

Lemma hex_not_separator c : Ipc.hexDigit c = true -> separator c = false.
Proof.
  destruct c as [b0 b1 b2 b3 b4 b5 b6 b7].
  destruct b0, b1, b2, b3, b4, b5, b6, b7; intros H;
    vm_compute in H |- *; congruence.
Qed.

Lemma stripTail_split s :
  exists tail, s = (stripTail s ++ tail)%string /\ tailOk tail.
Proof.
  induction s as [|c s (tail & Heq & Hok)]; cbn [stripTail].
  - exists ""%string. split; [reflexivity | left; reflexivity].
  - destruct (separator c && negb (hasLineTerminator s)) eqn:E.
    + exists (String c s). split; [reflexivity|]. right.
      apply andb_true_iff in E as [Hc Hs]. apply negb_true_iff in Hs. eauto.
    + exists tail. split; [|exact Hok].
      change (String c (stripTail s) ++ tail)%string
        with (String c (stripTail s ++ tail)%string).
      rewrite <- Heq. reflexivity.
Qed.

Lemma stripTail_hex id tail :
  forallb Ipc.hexDigit (list_ascii_of_string id) = true ->
  tailOk tail ->
  stripTail (id ++ tail) = id.
Proof.
  intros Hhex Hok. induction id as [|c id IH].
  - destruct Hok as [-> | (c & rest & -> & Hc & Hrest)]; [reflexivity|].
    change (stripTail (String c rest) = ""%string).
    cbn [stripTail]. rewrite Hc, Hrest. reflexivity.
  - cbn in Hhex. apply andb_true_iff in Hhex as [Hc Hhex].
    change (stripTail (String c (id ++ tail)) = String c id).
    cbn [stripTail]. rewrite (hex_not_separator c Hc), (IH Hhex).
    reflexivity.
Qed.

(** X8: [extractContentIdFromUrl] returns a content id exactly for the
    URLs made of [acestream://], forty hexadecimal digits and then either
    nothing or a [/], [?] or [#] followed by characters without a line
    break; the id it returns is the one the [acestream:play] handler
    accepts. *)
Theorem extractContentIdFromUrl_spec :
  forall url id,
    extractContentIdFromUrl url = Some id <->
    Ipc.isValidContentId (Ipc.Text id) = true /\
    exists tail, url = ("acestream://" ++ id ++ tail)%string /\ tailOk tail.
Proof.
  intros url id. unfold extractContentIdFromUrl. split.
  - destruct (String.eqb_spec url "") as [->|Hne]; [discriminate|].
    destruct (String.prefix "acestream://" url) eqn:Hp; [|discriminate].
    apply prefix_spec in Hp as [rest ->]. cbn [orb negb].
    rewrite removeFirst_prefix.
    destruct (Ipc.repeatExactly Ipc.hexDigit 40 (stripTail rest)) eqn:Hv;
      [|discriminate].
    intros H. injection H as <-. split; [exact Hv|].
    destruct (stripTail_split rest) as (tail & Heq & Hok).
    exists tail. split; [congruence | exact Hok].
  - intros (Hv & tail & -> & Hok).
    change (("acestream://" ++ id ++ tail)%string =? "")%string with false.
    rewrite prefix_app, removeFirst_prefix. cbn [orb negb].
    cbn [Ipc.isValidContentId] in Hv. unfold Ipc.CONTENT_ID_REGEX in Hv.
    pose proof Hv as Hv'. apply repeatExactly_spec in Hv' as [_ Hhex].
    rewrite (stripTail_hex id tail Hhex Hok), Hv. reflexivity.
Qed.

Lemma extractContentIdFromUrl_spec_witness :
  extractContentIdFromUrl ("acestream://" ++ Ipc.exampleId ++ "?autoplay=1")
    = Some Ipc.exampleId.
Proof.
  apply extractContentIdFromUrl_spec. split; [reflexivity|].
  exists "?autoplay=1"%string. split; [reflexivity|].
  right. exists "?"%char, "autoplay=1"%string. repeat split.
Defined.

Lemma handleProtocolUrl_valid url sh :
  (forall id, pendingProtocolUrl sh = Some id -> validId id) ->
  (forall id, pendingProtocolUrl (fst (handleProtocolUrl url sh)) = Some id ->
              validId id) /\
  Forall validId (snd (handleProtocolUrl url sh)).
Proof.
  intros Hpending. unfold handleProtocolUrl.
  destruct (extractContentIdFromUrl url) as [contentId|] eqn:E.
  - apply extractContentIdFromUrl_spec in E as [Hv _].
    destruct (mainWindow sh); cbn [fst snd pendingProtocolUrl].
    + split; [exact Hpending | repeat constructor; exact Hv].
    + split; [intros id H; injection H as <-; exact Hv | constructor].
  - split; [exact Hpending | constructor].
Qed.

Lemma step_valid sh ev :
  (forall id, pendingProtocolUrl sh = Some id -> validId id) ->
  (forall id, pendingProtocolUrl (fst (step sh ev)) = Some id -> validId id) /\
  Forall validId (snd (step sh ev)).
Proof.
  intros Hpending. destruct ev as [url|commandLine| | |]; cbn [step].
  - apply handleProtocolUrl_valid, Hpending.
  - destruct (List.find _ commandLine) as [url|];
      [apply handleProtocolUrl_valid, Hpending|].
    split; [exact Hpending | constructor].
  - split; [exact Hpending | constructor].
  - destruct (pendingProtocolUrl sh) as [contentId|] eqn:E;
      [|split; [cbn [fst]; rewrite E; discriminate | constructor]].
    destruct (contentId =? "")%string; cbn [fst snd pendingProtocolUrl].
    + split; [rewrite E; exact Hpending | constructor].
    + split; [discriminate|].
      destruct (mainWindow sh); repeat constructor. apply Hpending. reflexivity.
  - split; [exact Hpending | constructor].
Qed.

(** X9: whatever URLs arrive, in whatever order windows are created,
    loaded and closed, every content id the main process sends to the
    renderer is one the [acestream:play] handler accepts. *)
Theorem only_valid_ids_reach_renderer :
  forall evs, Forall validId (snd (run starting evs)).
Proof.
  assert (H : forall evs sh,
             (forall id, pendingProtocolUrl sh = Some id -> validId id) ->
             Forall validId (snd (run sh evs))).
  { induction evs as [|ev evs IH]; intros sh Hpending; cbn [run].
    - constructor.
    - destruct (step_valid sh ev Hpending) as [Hp Hout].
      destruct (step sh ev) as [sh1 out1]. cbn [fst snd] in *.
      specialize (IH sh1 Hp). destruct (run sh1 evs) as [sh2 out2].
      cbn [snd] in *. apply Forall_app. auto. }
  intros evs. apply H. cbn. discriminate.
Qed.

(** X10: a valid URL that arrives while no window exists is kept, sent
    once when the next window has finished loading, and not again on a
    later load; with a window it is sent at once.  A URL that is not valid
    changes nothing and sends nothing. *)
Theorem pending_url_delivered_once :
  forall url sh,
    (forall id, extractContentIdFromUrl url = Some id ->
       (mainWindow sh = false ->
        run sh [OpenUrl url; CreateWindow; DidFinishLoad; DidFinishLoad]
          = (mkShell true None, [id])) /\
       (mainWindow sh = true -> step sh (OpenUrl url) = (sh, [id]))) /\
    (extractContentIdFromUrl url = None -> step sh (OpenUrl url) = (sh, [])).
Proof.
  intros url [window pending]. split.
  - intros id Hid. pose proof Hid as Hv.
    apply extractContentIdFromUrl_spec in Hv as [Hv _].
    assert (Hne : (id =? "")%string = false).
    { destruct id; [discriminate | reflexivity]. }
    split; intros Hw; cbn in Hw; subst window.
    + cbn [run step]. unfold handleProtocolUrl. rewrite Hid.
      cbn [mainWindow pendingProtocolUrl]. rewrite Hne. reflexivity.
    + cbn [step]. unfold handleProtocolUrl. rewrite Hid. reflexivity.
  - intros Hnone. cbn [step]. unfold handleProtocolUrl. rewrite Hnone.
    reflexivity.
Qed.

Lemma pending_url_delivered_once_witness :
  run starting [OpenUrl ("acestream://" ++ Ipc.exampleId);
                CreateWindow; DidFinishLoad; DidFinishLoad]
    = (mkShell true None, [Ipc.exampleId]).
Proof.
  destruct (pending_url_delivered_once ("acestream://" ++ Ipc.exampleId) starting)
    as [H _].
  apply (H Ipc.exampleId); reflexivity.
Defined.

(** X11: when the dev-server URL is unset or empty, navigation is allowed
    only to URLs that begin with [file://]; an empty origin is filtered
    out and does not admit every URL.  With a dev-server URL set, its
    prefix is admitted as well. *)
Theorem navigation_restricted_to_origins :
  forall url,
    navigationAllowed None url = String.prefix "file://" url /\
    navigationAllowed (Some ""%string) url = String.prefix "file://" url /\
    (forall rest, navigationAllowed None ("http" ++ rest) = false) /\
    (forall dev, dev <> ""%string ->
       navigationAllowed (Some dev) url
         = String.prefix dev url || String.prefix "file://" url).
Proof.
  intros url. unfold navigationAllowed, allowedOrigins. cbn.
  split; [apply orb_false_r|]. split; [apply orb_false_r|]. split.
  - intros rest. reflexivity.
  - intros dev Hdev. destruct (String.eqb_spec dev "") as [->|_]; [congruence|].
    cbn. rewrite orb_false_r. reflexivity.
Qed.

Lemma navigation_restricted_to_origins_witness :
  navigationAllowed (Some "http://localhost:5173"%string) "https://example.org/"
    = false.
Proof.
  destruct (navigation_restricted_to_origins "https://example.org/")
    as (_ & _ & _ & H).
  rewrite H; [reflexivity | discriminate].
Defined.

End ProtocolUrls.

(** * Further properties of the reconnect loop *)

Section InFlight.
Import AppContent.

Lemma recovery_status s : isRecovery s = true -> status s = "dl"%string /\ 0 < peers s.
Proof.
  unfold isRecovery. intros H. apply andb_true_iff in H as [Hs Hp].
  apply String.eqb_eq in Hs. apply Z.ltb_lt in Hp. auto.
Qed.

(** The interval callback after its [await], with the two tests of the
    handler written out. *)
Lemma deliver_unfold seen s l :
  Polling.deliver seen s l =
    let r := Polling.refs l in
    let retry := (status s =? "error")%string && negb (isRetryingRef r)
                 && (seen <? MAX_RETRIES)%nat in
    let reset := (status s =? "dl")%string && (0 <? peers s)
                 && (0 <? seen)%nat in
    let r1 := if retry
              then mkRetry (retryCount r) true (Some {| ms := retryDelay seen |})
              else r in
    (Polling.cleanup (retryCount r)
       (Polling.mkLoop (if reset then setRetryCount (fun _ => 0%nat) r1 else r1)
                       (Polling.waiting l)
                       (retry || Polling.armed l)
                       (if retry && Polling.armed l
                        then S (Polling.orphans l) else Polling.orphans l)
                       (Polling.restarting l)),
     if retry then [SetTimeout (retryDelay seen)] else []).
Proof.
  unfold Polling.deliver. rewrite onStats_unfold. cbv zeta.
  destruct ((status s =? "error")%string && negb (isRetryingRef (Polling.refs l))
            && (seen <? MAX_RETRIES)%nat); reflexivity.
Qed.

Lemma single_start : Polling.single Polling.start.
Proof.
  unfold Polling.single, Polling.start. cbn.
  repeat split; intros; (discriminate || congruence).
Qed.

Lemma single_deliver seen s l :
  Polling.single l -> Polling.single (fst (Polling.deliver seen s l)).
Proof.
  destruct l as [[count guard timer] w a o n].
  unfold Polling.single. cbn [Polling.refs Polling.armed Polling.orphans
                               Polling.restarting isRetryingRef retryTimeoutRef].
  intros (Ho & Href & Harmed & Hrun). subst o.
  rewrite deliver_unfold. cbv zeta.
  cbn [fst Polling.refs Polling.armed Polling.orphans Polling.restarting
       Polling.waiting isRetryingRef retryTimeoutRef retryCount].
  destruct ((status s =? "error")%string); destruct guard;
    destruct (seen <? MAX_RETRIES)%nat;
    destruct ((status s =? "dl")%string && (0 <? peers s) && (0 <? seen)%nat);
    destruct a; cbn [andb orb negb];
    unfold Polling.cleanup, rerender, setRetryCount;
    cbn [Polling.refs Polling.armed Polling.orphans Polling.restarting
         Polling.waiting isRetryingRef retryTimeoutRef retryCount];
    try (destruct (0 =? count)%nat);
    try rewrite Nat.eqb_refl;
    cbn [Polling.refs Polling.armed Polling.orphans Polling.restarting
         Polling.waiting isRetryingRef retryTimeoutRef retryCount];
    repeat split; intros; try congruence; try tauto;
    try (destruct (Harmed eq_refl); congruence);
    try (destruct (Hrun ltac:(assumption)); congruence);
    try (destruct n; [reflexivity | destruct (Hrun ltac:(discriminate)); discriminate]).
Qed.

Lemma single_step l ev :
  Polling.single l -> Polling.single (fst (Polling.step l ev)).
Proof.
  intros Hl. destruct ev as [|k s| | |outcome]; cbn [Polling.step].
  - exact Hl.
  - destruct (Polling.waiting l !! k) as [seen|]; [|exact Hl].
    apply single_deliver. exact Hl.
  - destruct Hl as (Ho & Href & Harmed & Hrun).
    destruct (Polling.armed l) eqn:Ea.
    + destruct (Harmed eq_refl) as [Hg Hn].
      unfold Polling.single. cbn. rewrite Hn.
      repeat split; intros; (assumption || discriminate).
    + unfold Polling.single. cbn [fst]. rewrite Ea. auto.
  - pose proof Hl as (Ho & _). rewrite Ho. exact Hl.
  - pose proof Hl as (Ho & Href & Harmed & Hrun).
    destruct (Polling.restarting l) as [|n] eqn:En; [exact Hl|].
    destruct (Hrun ltac:(discriminate)) as [Hg Hn]. injection Hn as ->.
    destruct (Polling.armed l) eqn:Ea;
      [destruct (Harmed eq_refl); discriminate|].
    rewrite onRetryTimeout_fields. unfold Polling.cleanup, rerender.
    cbn [fst Polling.refs retryCount].
    destruct (Nat.eqb_spec (S (retryCount (Polling.refs l)))
                           (retryCount (Polling.refs l))); [lia|].
    unfold Polling.single. cbn.
    repeat split; intros; (assumption || discriminate || congruence).
Qed.

Lemma single_run evs :
  forall l, Polling.single l -> Polling.single (fst (Polling.run l evs)).
Proof.
  induction evs as [|ev evs IH]; intros l Hl; [exact Hl|].
  cbn [Polling.run]. pose proof (single_step l ev Hl) as H1.
  destruct (Polling.step l ev) as [l1 out1]. cbn [fst] in H1.
  specialize (IH l1 H1). destruct (Polling.run l1 evs) as [l2 out2]. exact IH.
Qed.

(** Once the guard is held with no timer armed and no restart running,
    nothing releases it: every event leaves the loop in that state, with
    nothing scheduled and no restart made, and a count of zero stays. *)
Lemma stuck_step l ev :
  Polling.stuck l ->
  Polling.stuck (fst (Polling.step l ev)) /\
  snd (Polling.step l ev) = [] /\
  (retryCount (Polling.refs l) = 0%nat ->
   retryCount (Polling.refs (fst (Polling.step l ev))) = 0%nat).
Proof.
  destruct l as [[count guard timer] w a o n].
  unfold Polling.stuck. cbn [Polling.refs Polling.armed Polling.orphans
                              Polling.restarting isRetryingRef].
  intros (-> & -> & -> & ->).
  destruct ev as [|k s| | |outcome]; cbn [Polling.step Polling.armed
    Polling.orphans Polling.restarting Polling.waiting Polling.refs fst snd].
  - cbn. auto.
  - destruct (w !! k) as [seen|]; [|cbn; auto].
    rewrite deliver_unfold. cbv zeta.
    cbn [Polling.refs Polling.armed Polling.orphans Polling.restarting
         Polling.waiting isRetryingRef retryCount negb fst snd].
    rewrite andb_false_r. cbn [andb orb].
    destruct ((status s =? "dl")%string && (0 <? peers s) && (0 <? seen)%nat);
      unfold Polling.cleanup, rerender, setRetryCount;
      cbn [Polling.refs retryCount];
      [destruct (0 =? count)%nat | rewrite Nat.eqb_refl]; cbn; auto.
  - cbn. auto.
  - cbn. auto.
  - cbn. auto.
Qed.

Lemma stuck_run evs :
  forall l,
    Polling.stuck l ->
    Polling.stuck (fst (Polling.run l evs)) /\
    snd (Polling.run l evs) = [] /\
    (retryCount (Polling.refs l) = 0%nat ->
     retryCount (Polling.refs (fst (Polling.run l evs))) = 0%nat).
Proof.
  induction evs as [|ev evs IH]; intros l Hl; [cbn; auto|].
  cbn [Polling.run]. destruct (stuck_step l ev Hl) as (H1 & Hout & Hc).
  destruct (Polling.step l ev) as [l1 out1]. cbn [fst snd] in *.
  destruct (IH l1 H1) as (H2 & Hout2 & Hc2).
  destruct (Polling.run l1 evs) as [l2 out2]. cbn [fst snd] in *.
  subst. auto.
Qed.

(** X12: a healthy sample while a retry timer is armed.  The callback
    that receives it schedules nothing.  When the counter is above zero
    and the callback holds a count above zero, the counter is reset and
    the effect's cleanup cancels the timer, but the guard stays held with
    no timer armed and no restart running: from then on, whatever ticks,
    samples and timer events follow, nothing is scheduled and no restart
    is made.  When the counter is zero or the callback holds zero, nothing
    changes and the retry stays armed. *)
Theorem recovery_during_pending_retry_stops_the_loop :
  forall history k seen s,
    let l := fst (Polling.run Polling.start history) in
    Polling.armed l = true ->
    Polling.waiting l !! k = Some seen ->
    isRecovery s = true ->
    let l' := fst (Polling.step l (Polling.Stats k s)) in
    snd (Polling.step l (Polling.Stats k s)) = [] /\
    ((0 < retryCount (Polling.refs l))%nat -> (0 < seen)%nat ->
     Polling.refs l' = mkRetry 0 true None /\
     Polling.armed l' = false /\
     forall evs,
       snd (Polling.run l' evs) = [] /\
       Polling.stuck (fst (Polling.run l' evs)) /\
       retryCount (Polling.refs (fst (Polling.run l' evs))) = 0%nat) /\
    (retryCount (Polling.refs l) = 0%nat \/ seen = 0%nat ->
     l' = Polling.mkLoop (Polling.refs l) (delete k (Polling.waiting l))
                         true 0 0).
Proof.
  intros history k seen s. cbv zeta.
  pose proof (single_run history Polling.start single_start) as Hsingle.
  destruct (fst (Polling.run Polling.start history))
    as [[count guard timer] w a o n].
  destruct Hsingle as (Ho & _ & Harmed & _).
  cbn [Polling.refs Polling.armed Polling.orphans Polling.restarting
       Polling.waiting isRetryingRef retryCount] in *.
  intros -> Hk Hrec. destruct (Harmed eq_refl) as [-> ->]. subst o.
  cbn [Polling.step Polling.waiting]. rewrite Hk.
  unfold Polling.deliver. cbn [Polling.refs].
  rewrite (onStats_recovery seen s _ Hrec). cbn [fst snd existsb orb andb].
  cbn [Polling.armed Polling.orphans Polling.restarting Polling.waiting].
  split; [reflexivity|]. split.
  - intros Hc Hseen.
    replace (0 <? seen)%nat with true by (symmetry; apply Nat.ltb_lt; exact Hseen).
    unfold Polling.cleanup, rerender, setRetryCount.
    cbn [Polling.refs retryCount isRetryingRef retryTimeoutRef].
    destruct (Nat.eqb_spec 0 count); [lia|].
    cbn [Polling.refs Polling.armed]. split; [reflexivity|]. split; [reflexivity|].
    intros evs.
    destruct (stuck_run evs (Polling.mkLoop (mkRetry 0 true None)
                               (delete k w) false 0 0)) as (Hs & Hout & Hzero).
    { repeat split. }
    split; [exact Hout|]. split; [exact Hs|]. apply Hzero. reflexivity.
  - intros [Hc|Hseen].
    + subst count. destruct (0 <? seen)%nat;
        unfold Polling.cleanup, setRetryCount; cbn; reflexivity.
    + subst seen. cbn. unfold Polling.cleanup. cbn. rewrite Nat.eqb_refl.
      reflexivity.
Qed.

Lemma recovery_during_pending_retry_stops_the_loop_witness :
  let history := [Polling.Tick; Polling.Stats 0 errorStats; Polling.TimerFires;
                  Polling.RestartSettles Restarted; Polling.Tick;
                  Polling.Stats 0 errorStats; Polling.Tick] in
  let l' := fst (Polling.step (fst (Polling.run Polling.start history))
                              (Polling.Stats 0 healthy)) in
  Polling.refs l' = mkRetry 0 true None /\
  snd (Polling.run l' [Polling.TimerFires; Polling.Tick;
                       Polling.Stats 0 errorStats;
                       Polling.RestartSettles RestartFailed]) = [].
Proof.
  cbv zeta.
  destruct (recovery_during_pending_retry_stops_the_loop
              [Polling.Tick; Polling.Stats 0 errorStats; Polling.TimerFires;
               Polling.RestartSettles Restarted; Polling.Tick;
               Polling.Stats 0 errorStats; Polling.Tick]
              0%nat 1%nat healthy eq_refl eq_refl eq_refl) as (_ & Hstop & _).
  destruct (Hstop ltac:(cbn; lia) ltac:(lia)) as (Hrefs & _ & Hdead).
  split; [exact Hrefs|]. apply Hdead.
Defined.

(** X13: what makes the loop retry.  A stats request that fails, and a
    stat URL the handler rejects, both reach the interval callback as a
    sample with status [error]; when the guard is free and the count the
    callback holds is below the cap, it schedules one retry with the
    delay of that count.  A reply without a [response] object reaches it
    with status [unknown] and never schedules anything, whatever count
    the callback holds. *)
Theorem failed_stats_schedule_retry :
  forall seen r,
    isRetryingRef r = false ->
    (seen < MAX_RETRIES)%nat ->
    (forall message s,
        Engine.getStreamStats (Throw message) = Ok s ->
        snd (onStats seen s r) = [SetTimeout (retryDelay seen)]) /\
    (forall engineManager url s,
        Ipc.isValidApiUrl url = false ->
        fst (Ipc.stats engineManager url) = Ok s ->
        snd (onStats seen s r) = [SetTimeout (retryDelay seen)]) /\
    (forall s count r',
        Engine.getStreamStats (Ok None) = Ok s ->
        onStats count s r' = (r', [])).
Proof.
  intros seen r Hg Hc.
  assert (Herr : snd (onStats seen errorStats r) = [SetTimeout (retryDelay seen)]).
  { rewrite onStats_unfold. cbv zeta. rewrite Hg.
    replace (seen <? MAX_RETRIES)%nat with true
      by (symmetry; apply Nat.ltb_lt; exact Hc). reflexivity. }
  split; [|split].
  - intros message s H. cbn in H. injection H as <-. exact Herr.
  - intros em url s Hurl H. unfold Ipc.stats in H. rewrite Hurl in H.
    cbn in H. injection H as <-. exact Herr.
  - intros s count r' H. cbn in H. injection H as <-.
    rewrite onStats_unfold. reflexivity.
Qed.

Lemma failed_stats_schedule_retry_witness :
  snd (onStats 0 errorStats (mkRetry 1 false None)) = [SetTimeout (Some 3000)].
Proof.
  destruct (failed_stats_schedule_retry 0%nat (mkRetry 1 false None) eq_refl
              ltac:(unfold MAX_RETRIES; lia)) as (H & _ & _).
  apply (H "timeout of 5000ms exceeded"%string errorStats). reflexivity.
Defined.





End InFlight.

Section Panel.
Import AppContent StatsPanel.

Lemma scheduled_is_retrying count s r :
  snd (onStats count s r) <> [] ->
  status s = "error"%string /\ (count < MAX_RETRIES)%nat.
Proof.
  rewrite onStats_unfold. cbv zeta. cbn [snd].
  destruct (String.eqb_spec (status s) "error") as [He|He]; [|cbn; congruence].
  destruct (isRetryingRef r); [cbn; congruence|].
  destruct (Nat.ltb_spec count MAX_RETRIES); [auto | cbn; congruence].
Qed.

(** X14: the status line against the loop, for a panel rendered with the
    count [count] and an interval callback that holds the same count.
    Whenever the callback schedules a retry, the panel shows the retry
    line with attempt [count + 1] of 5; at count 5 an error sample shows
    the plain error text and the callback schedules nothing; and a sample
    in the searching state shows the searching text in the waiting colour
    while no callback, whatever count it holds, schedules anything. *)
Theorem status_line_agrees_with_loop :
  forall count r s t,
    (snd (onStats count s r) <> [] ->
     statusLine s count MAX_RETRIES t = Retrying (count + 1) 5) /\
    (status s = "error"%string -> count = 5%nat ->
     statusLine s count MAX_RETRIES t = Plain (t "stats.statusError"%string) /\
     snd (onStats count s r) = []) /\
    (isSearching s = true ->
     statusLine s count MAX_RETRIES t
       = Plain (t "stats.statusSearching"%string) /\
     statusColor s = "#fbbf24"%string /\
     forall seen, onStats seen s r = (r, [])).
Proof.
  intros count r s t. split; [|split].
  - intros H. destruct (scheduled_is_retrying count s r H) as [He Hc].
    unfold statusLine, isRetrying. rewrite He.
    replace (count <? MAX_RETRIES)%nat with true
      by (symmetry; apply Nat.ltb_lt; exact Hc). reflexivity.
  - intros He Hc. unfold statusLine, isRetrying, getStatusText. rewrite He, Hc.
    split; [reflexivity|].
    rewrite onStats_unfold. cbv zeta. rewrite He.
    cbn. rewrite andb_false_r. reflexivity.
  - intros Hs. unfold isSearching in Hs.
    apply andb_true_iff in Hs as [Hs Hd]. apply andb_true_iff in Hs as [Hst Hp].
    apply String.eqb_eq in Hst. apply Z.eqb_eq in Hp. apply Z.eqb_eq in Hd.
    unfold statusLine, isRetrying, getStatusText, statusColor, isSearching.
    rewrite Hst, Hp, Hd. cbn. split; [reflexivity|]. split; [reflexivity|].
    intros seen. rewrite onStats_unfold, Hst, Hp. reflexivity.
Qed.

End Panel.

Section PanelWitness.
Import AppContent StatsPanel.

Lemma status_line_agrees_with_loop_witness :
  statusLine errorStats 2 MAX_RETRIES (fun key => key) = Retrying 3 5.
Proof.
  destruct (status_line_agrees_with_loop 2%nat (mkRetry 2 false None) errorStats
              (fun key => key)) as (H & _ & _).
  apply H. vm_compute. discriminate.
Defined.

End PanelWitness.

(** * Properties of the history and bookmark lists *)

Section BookmarkLists.
Import Lists.

Lemma NoDup_map_filter {A B} (f : A -> B) (test : A -> bool) (l : list A) :
  List.NoDup (map f l) -> List.NoDup (map f (List.filter test l)).
Proof.
  induction l as [|a l IH]; cbn; intros Hnd; [constructor|].
  inversion Hnd as [|? ? Hnotin Hrest]; subst.
  destruct (test a); cbn; [|auto]. constructor; [|auto].
  intros Hin. apply Hnotin. apply in_map_iff in Hin as (x & Hx & Hin).
  apply List.filter_In in Hin as [Hin _]. apply in_map_iff. eauto.
Qed.

Lemma NoDup_map_same {A B} (f : A -> B) (l : list A) x y :
  List.NoDup (map f l) -> In x l -> In y l -> f x = f y -> x = y.
Proof.
  induction l as [|a l IH]; cbn; intros Hnd Hx Hy Hf; [contradiction|].
  inversion Hnd as [|? ? Hnotin Hrest]; subst.
  destruct Hx as [->|Hx], Hy as [->|Hy]; auto.
  - exfalso. apply Hnotin. rewrite Hf. apply in_map, Hy.
  - exfalso. apply Hnotin. rewrite <- Hf. apply in_map, Hx.
Qed.

Lemma isBookmarked_iff contentId items :
  isBookmarked contentId items = true <->
  exists b, In b items /\ bookmarkContentId b = contentId.
Proof.
  unfold isBookmarked. rewrite existsb_exists. split;
    intros (b & Hin & Hb); exists b; (split; [exact Hin|]);
    apply String.eqb_eq; exact Hb.
Qed.

Lemma isBookmarked_in contentId items :
  isBookmarked contentId items = true <-> In contentId (map bookmarkContentId items).
Proof.
  rewrite isBookmarked_iff, in_map_iff. split; intros (b & H1 & H2); eauto.
Qed.

(** X15: with at most one bookmark per content id, [handleToggleBookmark]
    flips whether the content id is bookmarked and keeps the list free of
    duplicates; [handleAddBookmark] adds nothing for a content id that is
    already bookmarked. *)
Theorem toggle_bookmark_flips :
  forall stamp now contentId name isLive items,
    List.NoDup (map bookmarkContentId items) ->
    let toggled := handleToggleBookmark stamp now contentId name isLive items in
    isBookmarked contentId toggled = negb (isBookmarked contentId items) /\
    List.NoDup (map bookmarkContentId toggled) /\
    List.NoDup (map bookmarkContentId
               (handleAddBookmark stamp now contentId name isLive items)) /\
    (isBookmarked contentId items = true ->
     handleAddBookmark stamp now contentId name isLive items = items).
Proof.
  intros stamp now contentId name isLive items Hnd. cbv zeta.
  assert (Hadd : List.NoDup (map bookmarkContentId
                          (handleAddBookmark stamp now contentId name isLive items))).
  { unfold handleAddBookmark. destruct (isBookmarked contentId items) eqn:E;
      [exact Hnd|]. cbn. constructor; [|exact Hnd].
    intros Hin. apply isBookmarked_in in Hin. congruence. }
  unfold handleToggleBookmark.
  destruct (List.find _ items) as [existing|] eqn:Efind.
  - apply find_some in Efind as [Hin Hc]. apply String.eqb_eq in Hc.
    assert (Hwas : isBookmarked contentId items = true)
      by (apply isBookmarked_iff; eauto).
    rewrite Hwas. cbn [negb]. split; [|split; [|split]].
    + apply not_true_is_false. intros Hstill.
      apply isBookmarked_iff in Hstill as (b & Hb & Hbc).
      unfold handleRemoveBookmark in Hb.
      apply List.filter_In in Hb as [Hb Hid]. apply negb_true_iff in Hid.
      assert (b = existing)
        by (apply (NoDup_map_same bookmarkContentId items); congruence).
      subst b. rewrite String.eqb_refl in Hid. discriminate.
    + apply NoDup_map_filter, Hnd.
    + exact Hadd.
    + intros _. unfold handleAddBookmark. rewrite Hwas. reflexivity.
  - assert (Hwas : isBookmarked contentId items = false).
    { apply not_true_is_false. intros H.
      apply isBookmarked_iff in H as (b & Hb & Hbc).
      apply (find_none _ _ Efind) in Hb. cbn in Hb.
      apply String.eqb_neq in Hb. congruence. }
    rewrite Hwas. cbn [negb]. split; [|split; [|split]].
    + unfold handleAddBookmark. rewrite Hwas. unfold isBookmarked. cbn.
      rewrite String.eqb_refl. reflexivity.
    + exact Hadd.
    + exact Hadd.
    + discriminate.
Qed.

Lemma toggle_bookmark_flips_witness :
  isBookmarked Ipc.exampleId
    (handleToggleBookmark "1700000000000" 1700000000000 Ipc.exampleId "News" true
       (handleToggleBookmark "1700000000000" 1700000000000 Ipc.exampleId "News" true []))
    = false.
Proof.
  destruct (toggle_bookmark_flips "1700000000000" 1700000000000 Ipc.exampleId
              "News" true
              (handleToggleBookmark "1700000000000" 1700000000000 Ipc.exampleId
                 "News" true [])) as (H & _).
  - cbn. repeat constructor. intros [].
  - rewrite H. reflexivity.
Defined.

(** X16: after [handlePlay] the history starts with the new entry and
    holds at most 200 entries: the first 199 of the previous history
    follow the new one, and nothing is dropped while fewer than 200 were
    there.  Deleting an entry never lengthens the history and removes
    every entry with that id. *)
Theorem history_bounded :
  forall newEntry prev id,
    (length (addToHistory newEntry prev) <= HISTORY_MAX_ITEMS)%nat /\
    addToHistory newEntry prev = newEntry :: take 199 prev /\
    ((length prev < HISTORY_MAX_ITEMS)%nat ->
     addToHistory newEntry prev = newEntry :: prev) /\
    (length (handleDeleteHistoryItem id prev) <= length prev)%nat /\
    (forall item, In item (handleDeleteHistoryItem id prev) ->
                  In item prev /\ historyId item <> id).
Proof.
  intros newEntry prev id. unfold addToHistory, HISTORY_MAX_ITEMS.
  split; [rewrite length_take; lia|]. split; [reflexivity|].
  split; [|split].
  - intros Hlen. change (take 200 (newEntry :: prev)) with (newEntry :: take 199 prev).
    rewrite take_ge by lia. reflexivity.
  - unfold handleDeleteHistoryItem. apply List.filter_length_le.
  - intros item Hin. unfold handleDeleteHistoryItem in Hin.
    apply List.filter_In in Hin as [Hin Hid]. split; [exact Hin|].
    apply negb_true_iff, String.eqb_neq in Hid. exact Hid.
Qed.

Lemma history_bounded_witness :
  addToHistory (mkHistory "1700000000000" Ipc.exampleId "News" 1700000000000 0 true) []
  = [mkHistory "1700000000000" Ipc.exampleId "News" 1700000000000 0 true].
Proof.
  destruct (history_bounded
              (mkHistory "1700000000000" Ipc.exampleId "News" 1700000000000 0 true)
              [] "1700000000000"%string) as (_ & _ & H & _).
  apply H. cbn. unfold HISTORY_MAX_ITEMS. lia.
Defined.

End BookmarkLists.

Section RenameAndReorder.
Import Lists.

Lemma renameBookmark_keeps id newName item :
  bookmarkId (renameBookmark id newName item) = bookmarkId item /\
  bookmarkContentId (renameBookmark id newName item) = bookmarkContentId item.
Proof. unfold renameBookmark. destruct (_ =? _)%string; split; reflexivity. Qed.

Lemma find_none_rename id newName items :
  List.find (fun b => (bookmarkId b =? id)%string) items = None ->
  map (renameBookmark id newName) items = items.
Proof.
  induction items as [|b items IH]; cbn; [reflexivity|].
  unfold renameBookmark at 1. destruct (bookmarkId b =? id)%string; [discriminate|].
  intros H. rewrite IH by exact H. reflexivity.
Qed.

(** X17: [handleRenameBookmark] keeps the ids and content ids of every
    bookmark and the length of both lists; every bookmark with the given
    id carries the new name afterwards and the others are unchanged; when
    a bookmark with that id exists, the history entries of its content id
    carry the new name too and the other history entries are unchanged;
    when none exists, neither list changes. *)
Theorem rename_syncs_history :
  forall id newName bookmarkItems historyItems,
    let renamed := handleRenameBookmark id newName bookmarkItems historyItems in
    map bookmarkId (fst renamed) = map bookmarkId bookmarkItems /\
    map bookmarkContentId (fst renamed) = map bookmarkContentId bookmarkItems /\
    map historyId (snd renamed) = map historyId historyItems /\
    (forall i b, fst renamed !! i = Some b ->
       exists before, bookmarkItems !! i = Some before /\
         (bookmarkId before = id -> bookmarkName b = newName) /\
         (bookmarkId before <> id -> b = before)) /\
    (forall target,
       List.find (fun b => (bookmarkId b =? id)%string) bookmarkItems = Some target ->
       forall i h, snd renamed !! i = Some h ->
         exists before, historyItems !! i = Some before /\
           (historyContentId before = bookmarkContentId target ->
            historyName h = newName) /\
           (historyContentId before <> bookmarkContentId target -> h = before)) /\
    (List.find (fun b => (bookmarkId b =? id)%string) bookmarkItems = None ->
     renamed = (bookmarkItems, historyItems)).
Proof.
  intros id newName bookmarkItems historyItems. cbv zeta.
  unfold handleRenameBookmark. cbn [fst snd].
  split; [|split; [|split; [|split; [|split]]]].
  - rewrite map_map. apply map_ext. intros b. apply renameBookmark_keeps.
  - rewrite map_map. apply map_ext. intros b. apply renameBookmark_keeps.
  - destruct (List.find _ bookmarkItems); [|reflexivity].
    rewrite map_map. apply map_ext. intros h. unfold renameHistory.
    destruct (_ =? _)%string; reflexivity.
  - intros i b Hb. rewrite list_lookup_fmap in Hb.
    destruct (bookmarkItems !! i) as [before|]; [|discriminate].
    cbn in Hb. injection Hb as <-. exists before. split; [reflexivity|].
    unfold renameBookmark. destruct (String.eqb_spec (bookmarkId before) id);
      split; intros; (reflexivity || contradiction).
  - intros target Hfind i h Hh. rewrite Hfind in Hh.
    rewrite list_lookup_fmap in Hh.
    destruct (historyItems !! i) as [before|]; [|discriminate].
    cbn in Hh. injection Hh as <-. exists before. split; [reflexivity|].
    unfold renameHistory.
    destruct (String.eqb_spec (historyContentId before) (bookmarkContentId target));
      split; intros; (reflexivity || contradiction).
  - intros Hfind. rewrite Hfind, find_none_rename by exact Hfind. reflexivity.
Qed.

Lemma findIndex_lookup id items i :
  findIndex id items = Some i ->
  exists item, items !! i = Some item /\ bookmarkId item = id.
Proof.
  revert i. induction items as [|b items IH]; cbn; intros i H; [discriminate|].
  destruct (String.eqb_spec (bookmarkId b) id) as [Hid|Hid].
  - injection H as <-. exists b. split; [reflexivity|exact Hid].
  - destruct (findIndex id items) as [k|]; [|discriminate].
    cbn in H. injection H as <-. cbn. apply IH. reflexivity.
Qed.

(** X18: [handleDrop] hands [onReorder] a list exactly when a bookmark
    was dragged onto another one and both ids are found.  That list is a
    rearrangement of the bookmarks, and the dragged bookmark takes the
    position the target had. *)
Theorem drop_moves_dragged_to_target :
  forall dragged targetId items i j,
    dragged <> ""%string ->
    dragged <> targetId ->
    findIndex dragged items = Some i ->
    findIndex targetId items = Some j ->
    exists item newItems,
      handleDrop (Some dragged) targetId items = Some newItems /\
      items !! i = Some item /\
      bookmarkId item = dragged /\
      newItems !! j = Some item /\
      newItems ≡ₚ items /\
      length newItems = length items.
Proof.
  intros dragged targetId items i j Hne Hdiff Hi Hj.
  destruct (findIndex_lookup _ _ _ Hi) as (item & Hitem & Hid).
  destruct (findIndex_lookup _ _ _ Hj) as (target & Htarget & Htid).
  assert (Hij : i <> j) by (intros ->; congruence).
  pose proof (lookup_lt_Some _ _ _ Hitem) as Hli.
  pose proof (lookup_lt_Some _ _ _ Htarget) as Hlj.
  assert (Hlen : length (delete i items) = pred (length items)).
  { rewrite length_delete by eauto. lia. }
  exists item, (take j (delete i items) ++ item :: drop j (delete i items)).
  assert (Hperm : take j (delete i items) ++ item :: drop j (delete i items) ≡ₚ items).
  { rewrite <- Permutation_middle, take_drop. symmetry.
    apply delete_Permutation, Hitem. }
  split; [|split; [exact Hitem|split; [exact Hid|split; [|split]]]].
  - unfold handleDrop. apply String.eqb_neq in Hne, Hdiff.
    rewrite Hne, Hdiff, Hi, Hj, Hitem. reflexivity.
  - rewrite lookup_app_r by (rewrite length_take; lia).
    rewrite length_take, Hlen. replace (j - j `min` pred (length items))%nat with 0%nat by lia.
    reflexivity.
  - exact Hperm.
  - apply Permutation_length, Hperm.
Qed.

Lemma drop_moves_dragged_to_target_witness :
  exists newItems,
    handleDrop (Some "c"%string) "a"
      [mkBookmark "a" "A" "one" 1 true; mkBookmark "b" "B" "two" 2 true;
       mkBookmark "c" "C" "three" 3 false] = Some newItems /\
    newItems !! 0%nat = Some (mkBookmark "c" "C" "three" 3 false).
Proof.
  destruct (drop_moves_dragged_to_target "c" "a"
              [mkBookmark "a" "A" "one" 1 true; mkBookmark "b" "B" "two" 2 true;
               mkBookmark "c" "C" "three" 3 false] 2%nat 0%nat)
    as (item & newItems & H & Hitem & _ & Hnew & _);
    [discriminate|discriminate|reflexivity|reflexivity|].
  exists newItems. split; [exact H|]. rewrite Hnew, <- Hitem. reflexivity.
Defined.

End RenameAndReorder.

(** * Properties of the cache handlers *)

Section CacheHandlers.
Import Cache.

Lemma entry_induction (P : entry -> Prop) :
  (forall name size, P (File name size)) ->
  (forall name, P (Directory name None)) ->
  (forall name items, List.Forall P items -> P (Directory name (Some items))) ->
  (forall name, P (Other name)) ->
  forall e, P e.
Proof.
  intros Hfile Hclosed Hdir Hother.
  fix IH 1. intros [name size|name [items|]|name].
  - apply Hfile.
  - apply Hdir. induction items as [|e items IHitems]; constructor.
    + apply IH.
    + exact IHitems.
  - apply Hclosed.
  - apply Hother.
Qed.

Lemma sum_app xs ys : sum (xs ++ ys) = sum xs + sum ys.
Proof. unfold sum. induction xs as [|x xs IH]; cbn; [reflexivity|]. rewrite IH. lia. Qed.

Lemma sum_nonneg xs : List.Forall (fun x => 0 <= x) xs -> 0 <= sum xs.
Proof. unfold sum. induction 1; cbn; lia. Qed.

Lemma entrySize_measured e : entrySize e = sum (measured e).
Proof.
  induction e as [name [size|]|name|name items IH|name] using entry_induction;
    cbn; try reflexivity; [unfold sum; cbn; lia|].
  induction IH as [|e items He _ IHitems]; cbn; [reflexivity|].
  rewrite sum_app, <- He. f_equal. exact IHitems.
Qed.

(** X19: [getDirectorySize] is the sum of the sizes of the regular files
    that can be reached through listable directories and can be stat'ed:
    a directory that cannot be listed, a file that cannot be stat'ed and
    an entry that is neither file nor directory add nothing, at any
    depth.  With no negative file size the result is not negative. *)
Theorem directory_size_sums_reachable_files :
  forall items,
    getDirectorySize (Some items) = sum (flat_map measured items) /\
    (List.Forall (fun size => 0 <= size) (flat_map measured items) ->
     0 <= getDirectorySize (Some items)) /\
    (forall name other,
       getDirectorySize (Some (Directory name None :: Other other :: File name None :: items))
       = getDirectorySize (Some items)) /\
    (forall name inner,
       getDirectorySize (Some (Directory name (Some inner) :: items))
       = getDirectorySize (Some inner) + getDirectorySize (Some items)).
Proof.
  intros items.
  assert (H : forall l, getDirectorySize (Some l) = sum (flat_map measured l)).
  { intros l. cbn. induction l as [|e l IH]; cbn; [reflexivity|].
    rewrite sum_app, <- entrySize_measured, <- IH. reflexivity. }
  split; [apply H|]. split; [|split].
  - intros Hpos. rewrite H. apply sum_nonneg, Hpos.
  - intros name other. cbn. unfold sum. cbn. lia.
  - intros name inner. cbn. unfold sum. cbn. lia.
Qed.

(** X20: [cache:clear] answers [success: false] only when the cache
    directory exists and cannot be listed, and then carries the message
    of that error.  An entry whose removal fails does not make it fail:
    the answer is [success: true] and exactly the entries that could not
    be removed are left, in their order; without such entries the
    directory is left empty. *)
Theorem cache_clear_fails_only_on_listing :
  forall present listing locked,
    let reply := cacheClear present listing locked in
    (clearSuccess (fst reply) = false <->
     present = true /\ exists message, listing = Throw message) /\
    (forall message, present = true -> listing = Throw message ->
       clearError (fst reply) = Some message) /\
    (forall items, present = true -> listing = Ok items ->
       reply = (mkClearReply true None, Some (List.filter locked items)) /\
       ((forall e, In e items -> locked e = false) ->
        snd reply = Some [])).
Proof.
  intros present listing locked. cbv zeta. unfold cacheClear, clearDirectory.
  split; [|split].
  - destruct present, listing as [items|message]; cbn; split; intros H;
      first [ discriminate H
            | reflexivity
            | split; [reflexivity|exists message; reflexivity]
            | destruct H as [Hp [m Hm]]; (discriminate Hp || discriminate Hm) ].
  - intros message -> ->. reflexivity.
  - intros items -> ->. cbn. split; [reflexivity|]. intros Hfree. f_equal.
    induction items as [|e items IH]; cbn; [reflexivity|].
    rewrite (Hfree e) by (left; reflexivity). apply IH.
    intros e' He'. apply Hfree. right. exact He'.
Qed.

End CacheHandlers.
